(** * Tube joint visualizer: the assembly state engine of [App.tsx]

    A shallow embedding of the [Tube] class and of the handlers of the
    [TubeJointVisualizer] component: joint placement ([addTube]), removal,
    the snapshot history ([addToHistory], [undo], [redo], [restoreState]),
    the pointer drag ([onMouseDown], [onMouseMove], [onMouseUp]) and the
    export ([exportData]).

    Modelling decisions.
    - A JavaScript [number] is a real number ([R]): rounding of IEEE doubles
      is idealised away, [Math.sin], [Math.cos] and [Math.PI] are [sin],
      [cos] and [PI].
    - [THREE.Vector3] and [THREE.Euler] values are mutable objects.  They
      live in a store ([Heap]) and a [Tube] holds references into it, so
      that two tubes holding the same object see each other's writes.
    - A [Tube] object itself is never shared between the live list and a
      history entry ([clone] and [restoreState] both build a new [Tube]),
      so the record is a value; meshes belong to the render layer and are
      left out.
    - React state is one [State] record.  A handler reads the bindings of
      the render whose closure it is; the state setters take effect for the
      next render.  Each event is handled to completion and followed by the
      effects of the re-render ([render_effects]).
    - [Math.random] ids and the result of the three.js raycast are inputs
      of the events that consume them. *)

From Stdlib Require Import Reals Lra List String ZArith Bool Lia Sorted.
Import ListNotations.
Local Open Scope R_scope.
Set Warnings "-register-all".

(** ** The parts of three.js the component uses *)

Module Vector3.
Record t : Type := mk { x : R; y : R; z : R }.

Definition add (a b : t) : t := mk (x a + x b) (y a + y b) (z a + z b).

Definition dot (a b : t) : R := x a * x b + y a * y b + z a * z b.

(** [addScaledVector(v, s)] *)
Definition addScaledVector (a v : t) (s : R) : t :=
  mk (x a + x v * s) (y a + y v * s) (z a + z v * s).
End Vector3.

Module Euler.
(** The rotation order is three.js' default, ['XYZ']: no code of the
    component changes it. *)
Record t : Type := mk { x : R; y : R; z : R }.
End Euler.

Module Quaternion.
Record t : Type := mk { x : R; y : R; z : R; w : R }.

(** [Quaternion.setFromEuler], case ['XYZ']. *)
Definition setFromEuler (e : Euler.t) : t :=
  let c1 := cos (Euler.x e / 2) in
  let c2 := cos (Euler.y e / 2) in
  let c3 := cos (Euler.z e / 2) in
  let s1 := sin (Euler.x e / 2) in
  let s2 := sin (Euler.y e / 2) in
  let s3 := sin (Euler.z e / 2) in
  mk (s1 * c2 * c3 + c1 * s2 * s3)
     (c1 * s2 * c3 - s1 * c2 * s3)
     (c1 * c2 * s3 + s1 * s2 * c3)
     (c1 * c2 * c3 - s1 * s2 * s3).
End Quaternion.

(** [Vector3.applyQuaternion]: [v + w * t + q x t] with [t = 2 * (q x v)]. *)
Definition applyQuaternion (v : Vector3.t) (q : Quaternion.t) : Vector3.t :=
  let vx := Vector3.x v in
  let vy := Vector3.y v in
  let vz := Vector3.z v in
  let qx := Quaternion.x q in
  let qy := Quaternion.y q in
  let qz := Quaternion.z q in
  let qw := Quaternion.w q in
  let tx := 2 * (qy * vz - qz * vy) in
  let ty := 2 * (qz * vx - qx * vz) in
  let tz := 2 * (qx * vy - qy * vx) in
  Vector3.mk (vx + qw * tx + qy * tz - qz * ty)
             (vy + qw * ty + qz * tx - qx * tz)
             (vz + qw * tz + qx * ty - qy * tx).

(** [Vector3.applyEuler] *)
Definition applyEuler (v : Vector3.t) (e : Euler.t) : Vector3.t :=
  applyQuaternion v (Quaternion.setFromEuler e).

Module Plane.
Record t : Type := mk { normal : Vector3.t; constant : R }.

Definition distanceToPoint (p : t) (point : Vector3.t) : R :=
  Vector3.dot (normal p) point + constant p.
End Plane.

Module Ray.
Record t : Type := mk { origin : Vector3.t; direction : Vector3.t }.

(** [Ray.distanceToPlane]: [null] is [None]. *)
Definition distanceToPlane (r : t) (plane : Plane.t) : option R :=
  let denominator := Vector3.dot (Plane.normal plane) (direction r) in
  if Req_dec_T denominator 0 then
    if Req_dec_T (Plane.distanceToPoint plane (origin r)) 0
    then Some 0
    else None
  else
    let t := - (Vector3.dot (origin r) (Plane.normal plane)
                + Plane.constant plane) / denominator in
    if Rge_dec t 0 then Some t else None.

(** [Ray.at] *)
Definition at_ (r : t) (t0 : R) : Vector3.t :=
  Vector3.addScaledVector (origin r) (direction r) t0.

(** [Ray.intersectPlane(plane, target)]: the returned value.  When it is
    [None] three.js returns [null] and leaves [target] as it was. *)
Definition intersectPlane (r : t) (plane : Plane.t) : option Vector3.t :=
  match distanceToPlane r plane with
  | None => None
  | Some t0 => Some (at_ r t0)
  end.
End Ray.

(** ** The store of vector and Euler objects *)

Definition ref : Type := nat.

Record Heap : Type := mkHeap {
  vectors : list Vector3.t;
  eulers : list Euler.t
}.

Fixpoint upd {A : Type} (l : list A) (i : nat) (v : A) : list A :=
  match l, i with
  | [], _ => []
  | _ :: l', O => v :: l'
  | a :: l', S i' => a :: upd l' i' v
  end.

Definition get_vec (h : Heap) (p : ref) : Vector3.t :=
  nth p (vectors h) (Vector3.mk 0 0 0).

Definition get_euler (h : Heap) (r : ref) : Euler.t :=
  nth r (eulers h) (Euler.mk 0 0 0).

(** [p.copy(v)] / [p.set(..)] on a vector object *)
Definition set_vec (h : Heap) (p : ref) (v : Vector3.t) : Heap :=
  mkHeap (upd (vectors h) p v) (eulers h).

Definition set_euler (h : Heap) (r : ref) (e : Euler.t) : Heap :=
  mkHeap (vectors h) (upd (eulers h) r e).

(** [new THREE.Vector3(..)] *)
Definition new_Vector3 (v : Vector3.t) (h : Heap) : ref * Heap :=
  (List.length (vectors h), mkHeap (vectors h ++ [v]) (eulers h)).

(** [new THREE.Euler(..)] *)
Definition new_Euler (e : Euler.t) (h : Heap) : ref * Heap :=
  (List.length (eulers h), mkHeap (vectors h) (eulers h ++ [e])).

(** ** class Tube *)

Module Tube.
Record t : Type := mk {
  width : R;
  height : R;
  thickness : R;
  length : R;
  position : ref;
  rotation : ref;
  id : string;
  isSelected : bool
}.

(** The constructor stores its arguments as they are: it validates
    nothing and it keeps the [position] and [rotation] objects it is
    given.  The id drawn from [Math.random] is the argument [newId]. *)
Definition new (width height thickness length : R)
           (position rotation : ref) (newId : string) : t :=
  mk width height thickness length position rotation newId false.

Definition setSelected (tube : t) (selected : bool) : t :=
  mk (width tube) (height tube) (thickness tube) (length tube)
     (position tube) (rotation tube) (id tube) selected.

(** [clone()]: new vector and Euler objects with the same coordinates,
    then the id and the selection flag are copied over. *)
Definition clone (tube : t) (h : Heap) : t * Heap :=
  let (p, h1) := new_Vector3 (get_vec h (position tube)) h in
  let (r, h2) := new_Euler (get_euler h1 (rotation tube)) h1 in
  (mk (width tube) (height tube) (thickness tube) (length tube)
      p r (id tube) (isSelected tube), h2).
End Tube.

(** ** The component state *)

Module App.

Record State : Type := mkState {
  heap : Heap;
  (* useState *)
  tubes : list Tube.t;
  selectedTube : option string;
  draggedTube : option string;
  tubeType : string;
  width : R;
  height : R;
  thickness : R;
  length : R;
  angle : R;
  snapToAngle : bool;
  history : list (list Tube.t);
  historyIndex : Z;
  (* useRef *)
  tubesRef : list Tube.t;
  draggedTubeRef : option string;
  (* controls.isDragging: the camera is being rotated *)
  isDragging : bool;
  (* sceneRef, cameraRef and rendererRef are assigned together by the mount
     effect and never reset; [true] when they are set *)
  mounted : bool
}.

Definition set_heap (st : State) (v : Heap) : State :=
  mkState v (tubes st) (selectedTube st) (draggedTube st) (tubeType st)
    (width st) (height st) (thickness st) (length st) (angle st)
    (snapToAngle st) (history st) (historyIndex st) (tubesRef st)
    (draggedTubeRef st) (isDragging st) (mounted st).

Definition setTubes (st : State) (v : list Tube.t) : State :=
  mkState (heap st) v (selectedTube st) (draggedTube st) (tubeType st)
    (width st) (height st) (thickness st) (length st) (angle st)
    (snapToAngle st) (history st) (historyIndex st) (tubesRef st)
    (draggedTubeRef st) (isDragging st) (mounted st).

Definition setSelectedTube (st : State) (v : option string) : State :=
  mkState (heap st) (tubes st) v (draggedTube st) (tubeType st)
    (width st) (height st) (thickness st) (length st) (angle st)
    (snapToAngle st) (history st) (historyIndex st) (tubesRef st)
    (draggedTubeRef st) (isDragging st) (mounted st).

Definition setDraggedTube (st : State) (v : option string) : State :=
  mkState (heap st) (tubes st) (selectedTube st) v (tubeType st)
    (width st) (height st) (thickness st) (length st) (angle st)
    (snapToAngle st) (history st) (historyIndex st) (tubesRef st)
    (draggedTubeRef st) (isDragging st) (mounted st).

Definition setTubeType (st : State) (v : string) : State :=
  mkState (heap st) (tubes st) (selectedTube st) (draggedTube st) v
    (width st) (height st) (thickness st) (length st) (angle st)
    (snapToAngle st) (history st) (historyIndex st) (tubesRef st)
    (draggedTubeRef st) (isDragging st) (mounted st).

Definition setWidth (st : State) (v : R) : State :=
  mkState (heap st) (tubes st) (selectedTube st) (draggedTube st) (tubeType st)
    v (height st) (thickness st) (length st) (angle st)
    (snapToAngle st) (history st) (historyIndex st) (tubesRef st)
    (draggedTubeRef st) (isDragging st) (mounted st).

Definition setHeight (st : State) (v : R) : State :=
  mkState (heap st) (tubes st) (selectedTube st) (draggedTube st) (tubeType st)
    (width st) v (thickness st) (length st) (angle st)
    (snapToAngle st) (history st) (historyIndex st) (tubesRef st)
    (draggedTubeRef st) (isDragging st) (mounted st).

Definition setThickness (st : State) (v : R) : State :=
  mkState (heap st) (tubes st) (selectedTube st) (draggedTube st) (tubeType st)
    (width st) (height st) v (length st) (angle st)
    (snapToAngle st) (history st) (historyIndex st) (tubesRef st)
    (draggedTubeRef st) (isDragging st) (mounted st).

Definition setLength (st : State) (v : R) : State :=
  mkState (heap st) (tubes st) (selectedTube st) (draggedTube st) (tubeType st)
    (width st) (height st) (thickness st) v (angle st)
    (snapToAngle st) (history st) (historyIndex st) (tubesRef st)
    (draggedTubeRef st) (isDragging st) (mounted st).

Definition setAngle (st : State) (v : R) : State :=
  mkState (heap st) (tubes st) (selectedTube st) (draggedTube st) (tubeType st)
    (width st) (height st) (thickness st) (length st) v
    (snapToAngle st) (history st) (historyIndex st) (tubesRef st)
    (draggedTubeRef st) (isDragging st) (mounted st).

Definition setSnapToAngle (st : State) (v : bool) : State :=
  mkState (heap st) (tubes st) (selectedTube st) (draggedTube st) (tubeType st)
    (width st) (height st) (thickness st) (length st) (angle st)
    v (history st) (historyIndex st) (tubesRef st)
    (draggedTubeRef st) (isDragging st) (mounted st).

Definition setHistory (st : State) (v : list (list Tube.t)) : State :=
  mkState (heap st) (tubes st) (selectedTube st) (draggedTube st) (tubeType st)
    (width st) (height st) (thickness st) (length st) (angle st)
    (snapToAngle st) v (historyIndex st) (tubesRef st)
    (draggedTubeRef st) (isDragging st) (mounted st).

Definition setHistoryIndex (st : State) (v : Z) : State :=
  mkState (heap st) (tubes st) (selectedTube st) (draggedTube st) (tubeType st)
    (width st) (height st) (thickness st) (length st) (angle st)
    (snapToAngle st) (history st) v (tubesRef st)
    (draggedTubeRef st) (isDragging st) (mounted st).

Definition set_tubesRef (st : State) (v : list Tube.t) : State :=
  mkState (heap st) (tubes st) (selectedTube st) (draggedTube st) (tubeType st)
    (width st) (height st) (thickness st) (length st) (angle st)
    (snapToAngle st) (history st) (historyIndex st) v
    (draggedTubeRef st) (isDragging st) (mounted st).

Definition set_draggedTubeRef (st : State) (v : option string) : State :=
  mkState (heap st) (tubes st) (selectedTube st) (draggedTube st) (tubeType st)
    (width st) (height st) (thickness st) (length st) (angle st)
    (snapToAngle st) (history st) (historyIndex st) (tubesRef st)
    v (isDragging st) (mounted st).

Definition set_isDragging (st : State) (v : bool) : State :=
  mkState (heap st) (tubes st) (selectedTube st) (draggedTube st) (tubeType st)
    (width st) (height st) (thickness st) (length st) (angle st)
    (snapToAngle st) (history st) (historyIndex st) (tubesRef st)
    (draggedTubeRef st) v (mounted st).

(** The state of the first render, once the mount effect has run. *)
Definition init : State :=
  mkState (mkHeap [] []) [] None None "rectangular" 50 30 3 100 90 true
          [] (-1)%Z [] None false true.

(** ** JavaScript helpers *)

(** [a === b] on [string | null] *)
Definition strict_eq (a b : option string) : bool :=
  match a, b with
  | Some s1, Some s2 => String.eqb s1 s2
  | None, None => true
  | _, _ => false
  end.

(** Truthiness of a [string | null]: [null] and the empty string are falsy. *)
Definition truthy (a : option string) : bool :=
  match a with
  | Some s => negb (String.eqb s "")
  | None => false
  end.

(** [l.slice(0, e)] for an integer [e]: a negative [e] counts from the end. *)
Definition slice0 {A : Type} (l : list A) (e : Z) : list A :=
  let len := Z.of_nat (List.length l) in
  let k := if (e <? 0)%Z then Z.max (len + e) 0 else Z.min e len in
  firstn (Z.to_nat k) l.

(** [l[i]] for an integer [i]: [undefined] is [None]. *)
Definition index {A : Type} (l : list A) (i : Z) : option A :=
  if (i <? 0)%Z then None else nth_error l (Z.to_nat i).

(** [l[l.length - 1]] *)
Definition last_elem {A : Type} (l : list A) : option A :=
  index l (Z.of_nat (List.length l) - 1).

(** ** snapAngleFunc *)

Definition snapAngles : list R := [0; 30; 45; 60; 90; 120; 135; 150; 180].

(** The callback of [reduce]: the current element replaces the accumulator
    only when it is strictly closer to [angleValue]. *)
Definition closer (angleValue prev curr : R) : R :=
  if Rlt_dec (Rabs (curr - angleValue)) (Rabs (prev - angleValue))
  then curr else prev.

(** [reduce] without an initial value starts from the first element. *)
Definition snapAngleFunc (st : State) (angleValue : R) : R :=
  if negb (snapToAngle st) then angleValue
  else match snapAngles with
       | [] => angleValue
       | first :: rest => fold_left (closer angleValue) rest first
       end.

(** ** History *)

(** [tubesToSave.map(t => t.clone())] *)
Fixpoint map_clone (ts : list Tube.t) (h : Heap) : list Tube.t * Heap :=
  match ts with
  | [] => ([], h)
  | t0 :: ts' =>
      let (c, h1) := Tube.clone t0 h in
      let (cs, h2) := map_clone ts' h1 in
      (c :: cs, h2)
  end.

(** [addToHistory].  [history_c] and [historyIndex_c] are the [history] and
    [historyIndex] bindings of the render in which this instance of the
    function was created: a handler of the current render passes the current
    values; the mouse handlers, registered once by the mount effect
    ([useEffect(.., [])]), hold the instance of the first render. *)
Definition addToHistory (history_c : list (list Tube.t)) (historyIndex_c : Z)
           (tubesToSave : list Tube.t) (st : State) : State :=
  let (snapshot, h) := map_clone tubesToSave (heap st) in
  let newHistory := slice0 history_c (historyIndex_c + 1) ++ [snapshot] in
  setHistoryIndex (setHistory (set_heap st h) newHistory)
                  (Z.of_nat (List.length newHistory) - 1).

(** The tube [restoreState] builds from a history entry: [new Tube] with the
    entry's own [position] and [rotation] objects, then the id is copied. *)
Definition restoreTube (tubeData : Tube.t) : Tube.t :=
  Tube.new (Tube.width tubeData) (Tube.height tubeData)
           (Tube.thickness tubeData) (Tube.length tubeData)
           (Tube.position tubeData) (Tube.rotation tubeData)
           (Tube.id tubeData).

(** [restoreState(state)]; [None] as result: [state.map] threw because
    [state] was [undefined]. *)
Definition restoreState (state : option (list Tube.t)) (st : State)
  : option State :=
  if negb (mounted st) then Some st
  else match state with
       | None => None
       | Some entry => Some (setTubes st (map restoreTube entry))
       end.

Definition undo (st : State) : State :=
  if (0 <? historyIndex st)%Z then
    match restoreState (index (history st) (historyIndex st - 1)) st with
    | Some st1 => setHistoryIndex st1 (historyIndex st - 1)
    | None => st
    end
  else st.

Definition redo (st : State) : State :=
  if (historyIndex st <? Z.of_nat (List.length (history st)) - 1)%Z then
    match restoreState (index (history st) (historyIndex st + 1)) st with
    | Some st1 => setHistoryIndex st1 (historyIndex st + 1)
    | None => st
    end
  else st.

(** ** exportData: the value handed to [JSON.stringify] *)

Inductive JSON : Type :=
| JNumber (n : R)
| JString (s : string)
| JObject (fields : list (string * JSON))
| JArray (items : list JSON).

Definition exportTube (st : State) (tube : Tube.t) : JSON :=
  let p := get_vec (heap st) (Tube.position tube) in
  let r := get_euler (heap st) (Tube.rotation tube) in
  JObject
    [ ("type", JString (tubeType st));
      ("width", JNumber (Tube.width tube));
      ("height", JNumber (Tube.height tube));
      ("thickness", JNumber (Tube.thickness tube));
      ("length", JNumber (Tube.length tube));
      ("position", JObject [ ("x", JNumber (Vector3.x p));
                             ("y", JNumber (Vector3.y p));
                             ("z", JNumber (Vector3.z p)) ]);
      ("rotation", JObject [ ("x", JNumber (Euler.x r));
                             ("y", JNumber (Euler.y r));
                             ("z", JNumber (Euler.z r)) ]) ]%string.

Definition exportData (st : State) : JSON :=
  JArray (map (exportTube st) (tubes st)).

(** ** addTube, removeTube, clearAll *)

(** The pose of the new tube when the chain is not empty: the joint is the
    end face of [lastTube]; the new tube is turned about Y by [angleRad]
    and then moved half its own length along its own new direction. *)
Definition placeAfter (lastTube newTube : Tube.t) (finalAngle : R) (h : Heap)
  : Heap :=
  let angleRad := finalAngle * PI / 180 in
  let lastRotation := get_euler h (Tube.rotation lastTube) in
  let jointPosition :=
    Vector3.add
      (applyEuler (Vector3.mk 0 0 (Tube.length lastTube / 2)) lastRotation)
      (get_vec h (Tube.position lastTube)) in
  let newRotation :=
    Euler.mk (Euler.x lastRotation) (Euler.y lastRotation + angleRad)
             (Euler.z lastRotation) in
  let h1 := set_euler h (Tube.rotation newTube) newRotation in
  let offsetFromJoint :=
    applyEuler (Vector3.mk 0 0 (Tube.length newTube / 2)) newRotation in
  set_vec h1 (Tube.position newTube) (Vector3.add jointPosition offsetFromJoint).

Definition addTube (newId : string) (st : State) : State :=
  if negb (mounted st) then st
  else
    let finalAngle :=
      if snapToAngle st then snapAngleFunc st (angle st) else angle st in
    let (p, h1) := new_Vector3 (Vector3.mk 0 0 0) (heap st) in
    let (r, h2) := new_Euler (Euler.mk 0 0 0) h1 in
    let newTube :=
      Tube.new (if String.eqb (tubeType st) "square" then width st else width st)
               (if String.eqb (tubeType st) "square" then width st else height st)
               (thickness st) (length st) p r newId in
    let h3 :=
      match last_elem (tubes st) with
      | Some lastTube => placeAfter lastTube newTube finalAngle h2
      | None => h2
      end in
    let newTubesList := tubes st ++ [newTube] in
    addToHistory (history st) (historyIndex st) newTubesList
                 (setTubes (set_heap st h3) newTubesList).

Definition removeTube (tubeId : string) (st : State) : State :=
  if negb (mounted st) then st
  else
    let filteredTubes :=
      filter (fun t0 => negb (String.eqb (Tube.id t0) tubeId)) (tubes st) in
    match find (fun t0 => String.eqb (Tube.id t0) tubeId) (tubes st) with
    | Some _ =>
        let st1 := setTubes st filteredTubes in
        let st2 := if strict_eq (selectedTube st) (Some tubeId)
                   then setSelectedTube st1 None else st1 in
        addToHistory (history st) (historyIndex st) filteredTubes st2
    | None => st
    end.

Definition clearAll (st : State) : State :=
  if negb (mounted st) then st
  else setHistoryIndex
         (setHistory (setSelectedTube (setTubes st []) None) []) (-1)%Z.

(** ** Mouse handlers *)

(** [intersects[0].object.userData.tubeId] of the raycast against the live
    meshes is the input [hit] ([None]: no mesh under the pointer). *)
Definition onMouseDown (button : Z) (shiftKey : bool) (hit : option string)
           (st : State) : State :=
  if negb (mounted st) then st
  else
    let st1 :=
      if ((button =? 0)%Z && negb shiftKey)%bool then
        match hit with
        | Some tubeId =>
            set_isDragging
              (setDraggedTube
                 (set_draggedTubeRef (setSelectedTube st (Some tubeId))
                                     (Some tubeId))
                 (Some tubeId))
              false
        | None => setSelectedTube st None
        end
      else st in
    if ((button =? 1)%Z || ((button =? 0)%Z && shiftKey))%bool
    then set_isDragging st1 true
    else st1.

(** The floor plane the drag moves along. *)
Definition floor : Plane.t := Plane.mk (Vector3.mk 0 1 0) 0.

(** The map callback of the drag: every tube whose id is the dragged one has
    its position object overwritten with [intersection]. *)
Fixpoint dragTubes (dragged : option string) (intersection : Vector3.t)
         (ts : list Tube.t) (h : Heap) : Heap :=
  match ts with
  | [] => h
  | tube :: ts' =>
      let h1 := if strict_eq (Some (Tube.id tube)) dragged
                then set_vec h (Tube.position tube) intersection
                else h in
      dragTubes dragged intersection ts' h1
  end.

(** [ray] is the ray [setFromCamera] built for the pointer.  [intersection]
    is a fresh vector (0,0,0) that [intersectPlane] fills in only when it
    finds a point; the test [if (intersection)] is on that object, which is
    always truthy.  The camera rotation of the second branch belongs to the
    view and leaves this state as it is. *)
Definition onMouseMove (ray : Ray.t) (st : State) : State :=
  if negb (mounted st) then st
  else if truthy (draggedTubeRef st) then
    let intersection :=
      match Ray.intersectPlane ray floor with
      | Some point => point
      | None => Vector3.mk 0 0 0
      end in
    let h := dragTubes (draggedTubeRef st) intersection (tubes st) (heap st) in
    set_tubesRef (setTubes (set_heap st h) (tubes st)) (tubes st)
  else st.

(** The handler is the one the mount effect registered: its [addToHistory]
    is the instance of the first render, where [history] is [[]] and
    [historyIndex] is [-1]; the tubes come from [tubesRef]. *)
Definition onMouseUp (st : State) : State :=
  let st1 := set_isDragging st false in
  let st2 := if truthy (draggedTubeRef st1)
             then addToHistory [] (-1)%Z (tubesRef st1) st1
             else st1 in
  setDraggedTube (set_draggedTubeRef st2 None) None.

(** ** Effects of a render and the event loop *)

(** [tubesRef.current = tubes] and
    [tubes.forEach(tube => tube.setSelected(tube.id === selectedTube))].
    React runs an effect only when one of its dependencies changed; both
    effects are idempotent, so running them after every event gives the
    same state. *)
Definition render_effects (st : State) : State :=
  let ts := map (fun tube =>
                   Tube.setSelected tube
                     (strict_eq (Some (Tube.id tube)) (selectedTube st)))
                (tubes st) in
  set_tubesRef (setTubes st ts) ts.

Inductive Event : Type :=
| ChangeTubeType (v : string)
| ChangeWidth (v : R)
| ChangeHeight (v : R)
| ChangeThickness (v : R)
| ChangeLength (v : R)
| ChangeAngle (v : R)
| ChangeSnap (v : bool)
| ClickAddTube (newId : string)
| ClickRemoveTube (tubeId : string)
| ClickClearAll
| ClickUndo
| ClickRedo
| ClickTubeRow (tubeId : string)
| MouseDown (button : Z) (shiftKey : bool) (hit : option string)
| MouseMove (ray : Ray.t)
| MouseUp.

Definition handle (ev : Event) (st : State) : State :=
  match ev with
  | ChangeTubeType v => setTubeType st v
  | ChangeWidth v => setWidth st v
  | ChangeHeight v => setHeight st v
  | ChangeThickness v => setThickness st v
  | ChangeLength v => setLength st v
  | ChangeAngle v => setAngle st v
  | ChangeSnap v => setSnapToAngle st v
  | ClickAddTube newId => addTube newId st
  | ClickRemoveTube tubeId => removeTube tubeId st
  | ClickClearAll => clearAll st
  | ClickUndo => undo st
  | ClickRedo => redo st
  | ClickTubeRow tubeId => setSelectedTube st (Some tubeId)
  | MouseDown button shiftKey hit => onMouseDown button shiftKey hit st
  | MouseMove ray => onMouseMove ray st
  | MouseUp => onMouseUp st
  end.

Definition step (st : State) (ev : Event) : State :=
  render_effects (handle ev st).

Definition run (evs : list Event) (st : State) : State :=
  fold_left step evs st.

End App.

Import App.

(** ** What an observer sees of the assembly *)

(** A segment as read through the store: the scalar fields of the tube and
    the coordinates its position and rotation objects hold. *)
Record Segment : Type := mkSegment {
  seg_id : string;
  seg_width : R;
  seg_height : R;
  seg_thickness : R;
  seg_length : R;
  seg_position : Vector3.t;
  seg_rotation : Euler.t;
  seg_selected : bool
}.

Definition segment (h : Heap) (tube : Tube.t) : Segment :=
  mkSegment (Tube.id tube) (Tube.width tube) (Tube.height tube)
            (Tube.thickness tube) (Tube.length tube)
            (get_vec h (Tube.position tube))
            (get_euler h (Tube.rotation tube))
            (Tube.isSelected tube).

(** The live assembly, in chain order. *)
Definition assembly (st : State) : list Segment :=
  map (segment (heap st)) (tubes st).

(** The stored history as it reads now. *)
Definition stored_history (st : State) : list (list Segment) :=
  map (map (segment (heap st))) (history st).

(** The value nearest to [a] in the snap set; on a tie the smaller one. *)
Definition nearest_snap (a r : R) : Prop :=
  In r snapAngles /\
  forall s, In s snapAngles ->
            Rabs (r - a) <= Rabs (s - a) /\
            (Rabs (s - a) = Rabs (r - a) -> r <= s).

(** The pose of the last segment of the chain. *)
Definition last_pose (st : State) : option (Vector3.t * Euler.t) :=
  option_map (fun s => (seg_position s, seg_rotation s))
             (last_elem (assembly st)).

(** ** Well-formed states *)

(** Both references of a tube point into the store. *)
Definition valid (h : Heap) (tube : Tube.t) : Prop :=
  (Tube.position tube < List.length (vectors h))%nat /\
  (Tube.rotation tube < List.length (eulers h))%nat.

(** No two tubes of a list hold the same position object. *)
Definition separate (ts : list Tube.t) : Prop :=
  NoDup (map Tube.position ts).

Record WF (st : State) : Prop := mkWF {
  wf_tubes : Forall (valid (heap st)) (tubes st);
  wf_history : Forall (Forall (valid (heap st))) (history st);
  wf_separate : separate (tubes st);
  wf_history_separate : Forall separate (history st)
}.

(** The state the effects of a render leave: the ref mirrors the list and
    every selection flag agrees with [selectedTube]. *)
Definition committed (st : State) : Prop :=
  tubesRef st = tubes st /\
  Forall (fun tube => Tube.isSelected tube
                      = strict_eq (Some (Tube.id tube)) (selectedTube st))
         (tubes st).

(** The store only grew. *)
Definition extends (h h' : Heap) : Prop :=
  (exists vs, vectors h' = vectors h ++ vs) /\
  (exists es, eulers h' = eulers h ++ es).

(** ** Undo until nothing is left to undo *)

(** The Undo button is enabled ([disabled={historyIndex <= 0}]), which is
    also the guard of [undo]. *)
Definition canUndo (st : State) : bool := (0 <? historyIndex st)%Z.

(** Click Undo while it is enabled; the count of clicks is returned. *)
Fixpoint undo_until_exhausted (fuel : nat) (st : State) : State * nat :=
  match fuel with
  | O => (st, O)
  | S fuel' =>
      if canUndo st
      then let (st', k) := undo_until_exhausted fuel' (step st ClickUndo) in
           (st', S k)
      else (st, O)
  end.

(** The events that edit the assembly: a parameter change, Add Tube, the
    remove button of a row, Clear All. *)
Definition is_edit (ev : Event) : bool :=
  match ev with
  | ChangeTubeType _ | ChangeWidth _ | ChangeHeight _ | ChangeThickness _
  | ChangeLength _ | ChangeAngle _ | ChangeSnap _
  | ClickAddTube _ | ClickRemoveTube _ | ClickClearAll => true
  | _ => false
  end.

(** ** What a drag may change *)

(** Two readings of a segment that agree on everything but the position. *)
Definition same_but_position (s s' : Segment) : Prop :=
  seg_id s' = seg_id s /\
  seg_width s' = seg_width s /\
  seg_height s' = seg_height s /\
  seg_thickness s' = seg_thickness s /\
  seg_length s' = seg_length s /\
  seg_rotation s' = seg_rotation s /\
  seg_selected s' = seg_selected s.

(** ** The history records the assembly *)

(** A segment read without its selection flag. *)
Definition unselected (s : Segment) : Segment :=
  mkSegment (seg_id s) (seg_width s) (seg_height s) (seg_thickness s)
            (seg_length s) (seg_position s) (seg_rotation s) false.

(** The cursor is on the last entry, and that entry reads like the live
    assembly (an empty history goes with an empty assembly). *)
Record Recorded (st : State) : Prop := mkRecorded {
  rec_mounted : mounted st = true;
  rec_cursor : historyIndex st = (Z.of_nat (List.length (history st)) - 1)%Z;
  rec_last : match last_elem (history st) with
             | Some entry =>
                 map (fun tube => unselected (segment (heap st) tube)) entry
                 = map (fun tube => unselected (segment (heap st) tube)) (tubes st)
             | None => tubes st = []
             end
}.

(** The state [addTube] hands to [addToHistory]: the new tube is placed and
    appended, the history is not yet touched. *)
Definition appended (newId : string) (st : State) : State :=
  let finalAngle :=
    if snapToAngle st then snapAngleFunc st (angle st) else angle st in
  let (p, h1) := new_Vector3 (Vector3.mk 0 0 0) (heap st) in
  let (r, h2) := new_Euler (Euler.mk 0 0 0) h1 in
  let newTube :=
    Tube.new (if String.eqb (tubeType st) "square" then width st else width st)
             (if String.eqb (tubeType st) "square" then width st else height st)
             (thickness st) (length st) p r newId in
  let h3 :=
    match last_elem (tubes st) with
    | Some lastTube => placeAfter lastTube newTube finalAngle h2
    | None => h2
    end in
  setTubes (set_heap st h3) (tubes st ++ [newTube]).

(** ** Dimensions and export records *)

(** The dimension invariant the data model asks of a segment. *)
Definition dimension_invariant (s : Segment) : Prop :=
  0 < seg_width s /\ 0 < seg_height s /\ 0 < seg_thickness s /\
  0 < seg_length s /\
  seg_thickness s < Rmin (seg_width s) (seg_height s) / 2.

(** The keys of a JSON object, in order. *)
Definition keys (j : JSON) : list string :=
  match j with
  | JObject fields => map fst fields
  | _ => []
  end.

Fixpoint lookup (name : string) (fields : list (string * JSON)) : option JSON :=
  match fields with
  | [] => None
  | (k, v) :: rest => if String.eqb k name then Some v else lookup name rest
  end.

(** The value of a field of a JSON object. *)
Definition field (name : string) (j : JSON) : option JSON :=
  match j with
  | JObject fields => lookup name fields
  | _ => None
  end.

Definition items (j : JSON) : list JSON :=
  match j with
  | JArray l => l
  | _ => []
  end.

Definition xyz (a b c : R) : JSON :=
  JObject [("x", JNumber a); ("y", JNumber b); ("z", JNumber c)]%string.

(** An export record of segment [s]: its keys and the value of each. *)
Definition record_of (type : string) (s : Segment) (item : JSON) : Prop :=
  keys item = ["type"; "width"; "height"; "thickness"; "length";
               "position"; "rotation"]%string /\
  field "type" item = Some (JString type) /\
  field "width" item = Some (JNumber (seg_width s)) /\
  field "height" item = Some (JNumber (seg_height s)) /\
  field "thickness" item = Some (JNumber (seg_thickness s)) /\
  field "length" item = Some (JNumber (seg_length s)) /\
  field "position" item
  = Some (xyz (Vector3.x (seg_position s)) (Vector3.y (seg_position s))
              (Vector3.z (seg_position s))) /\
  field "rotation" item
  = Some (xyz (Euler.x (seg_rotation s)) (Euler.y (seg_rotation s))
              (Euler.z (seg_rotation s))).

(** The keys the interface description gives for a record. *)
Definition described_keys : list string :=
  ["width"; "height"; "thickness"; "length"; "position"; "rotation"]%string.

(** ** The pose of a new tube *)

(** Position and rotation [addTube] computes for the tube it is about to
    append, read off the state it is called in. *)
Definition placeNext (st : State) : Vector3.t * Euler.t :=
  match last_elem (tubes st) with
  | None => (Vector3.mk 0 0 0, Euler.mk 0 0 0)
  | Some lastTube =>
      let finalAngle :=
        if snapToAngle st then snapAngleFunc st (angle st) else angle st in
      let lastRotation := get_euler (heap st) (Tube.rotation lastTube) in
      let newRotation :=
        Euler.mk (Euler.x lastRotation)
                 (Euler.y lastRotation + finalAngle * PI / 180)
                 (Euler.z lastRotation) in
      (Vector3.add
         (Vector3.add
            (applyEuler (Vector3.mk 0 0 (Tube.length lastTube / 2)) lastRotation)
            (get_vec (heap st) (Tube.position lastTube)))
         (applyEuler (Vector3.mk 0 0 (length st / 2)) newRotation),
       newRotation)
  end.

(** Each coordinate of [u] is within [eps] of that of [v]. *)
Definition close_to (eps : R) (u v : Vector3.t) : Prop :=
  Rabs (Vector3.x u - Vector3.x v) < eps /\
  Rabs (Vector3.y u - Vector3.y v) < eps /\
  Rabs (Vector3.z u - Vector3.z v) < eps.

(** ** Scenarios *)

(** One tube with the panel defaults (50 x 30 x 3 x 100). *)
Definition one_tube : State := run [ClickAddTube "A"] init.

(** A second tube added at the default joint angle of 90 degrees. *)
Definition two_tubes : State := run [ClickAddTube "A"; ClickAddTube "B"] init.

(** The panel set to a thickness of 100 before a tube is added. *)
Definition thick_tube : State := run [ChangeThickness 100; ClickAddTube "A"] init.

(** A ray pointing straight down onto the floor point (10, 0, 20). *)
Definition ray_down : Ray.t :=
  Ray.mk (Vector3.mk 10 10 20) (Vector3.mk 0 (-1) 0).

(** A ray 10 above the floor and parallel to it. *)
Definition ray_level : Ray.t :=
  Ray.mk (Vector3.mk 0 10 0) (Vector3.mk 1 0 0).

(** Tube A grabbed with the left button. *)
Definition grabbed : State := run [MouseDown 0 false (Some "A"%string)] one_tube.

(** Tube A dragged to (10, 0, 20), button still down. *)
Definition dragging : State := run [MouseMove ray_down] grabbed.

(** A drag of tube B of [two_tubes]: press, two moves, release. *)
Definition drag_B : list Event :=
  [MouseDown 0 false (Some "B"%string); MouseMove ray_down; MouseMove ray_level;
   MouseUp].

(** Tube A added, removed, and brought back by Undo. *)
Definition restored : State :=
  run [ClickAddTube "A"; ClickRemoveTube "A"; ClickUndo] init.

(** The restored tube grabbed with the left button. *)
Definition restored_grabbed : State :=
  run [MouseDown 0 false (Some "A"%string)] restored.

(** A sequence of edits: three tubes added at different angles and
    lengths, the first one removed in between. *)
Definition sample_edits : list Event :=
  [ClickAddTube "A"; ChangeAngle 45; ClickAddTube "B"; ClickRemoveTube "A";
   ChangeLength 80; ClickAddTube "C"]%string.

(** ** The history cursor *)

(** The cursor is -1 on an empty history and an index into it otherwise. *)
Definition cursor_ok (st : State) : Prop :=
  (history st = [] /\ historyIndex st = (-1)%Z) \/
  (0 <= historyIndex st < Z.of_nat (List.length (history st)))%Z.

(** The Redo button is enabled ([disabled={historyIndex >= history.length - 1}]),
    which is also the guard of [redo]. *)
Definition canRedo (st : State) : bool :=
  (historyIndex st <? Z.of_nat (List.length (history st)) - 1)%Z.

(** A segment as it reads once its selection flag has been set again from
    the selected id, as the effects of a render do. *)
Definition reselect (sel : option string) (s : Segment) : Segment :=
  mkSegment (seg_id s) (seg_width s) (seg_height s) (seg_thickness s)
            (seg_length s) (seg_position s) (seg_rotation s)
            (strict_eq (Some (seg_id s)) sel).

(** The entry of the stored history at an integer index ([[]] outside). *)
Definition stored_entry (st : State) (i : Z) : list Segment :=
  match index (stored_history st) i with
  | Some entry => entry
  | None => []
  end.

(** ** The floor plane and the faces of a tube *)


(** [createMesh] centres the extrusion with [translate(0, 0, -length / 2)]:
    in its own frame a tube runs from z = -length/2 to z = length/2. *)
Definition end_face (s : Segment) : Vector3.t :=
  Vector3.add (seg_position s)
              (applyEuler (Vector3.mk 0 0 (seg_length s / 2)) (seg_rotation s)).

Definition start_face (s : Segment) : Vector3.t :=
  Vector3.add (seg_position s)
              (applyEuler (Vector3.mk 0 0 (- (seg_length s / 2))) (seg_rotation s)).

(** The tubes of an entry and the live tubes hold no object in common. *)
Definition disjoint_tubes (ts us : list Tube.t) : Prop :=
  forall t0 u, In t0 ts -> In u us ->
               Tube.position t0 <> Tube.position u /\
               Tube.rotation t0 <> Tube.rotation u.

(** The store [h'] has every object of [h], holding what it held. *)
Definition preserves (h h' : Heap) : Prop :=
  (forall p, (p < List.length (vectors h))%nat -> get_vec h' p = get_vec h p) /\
  (forall r, (r < List.length (eulers h))%nat -> get_euler h' r = get_euler h r) /\
  (List.length (vectors h) <= List.length (vectors h'))%nat /\
  (List.length (eulers h) <= List.length (eulers h'))%nat.

(** The events that are not a pointer move. *)
Definition not_a_move (ev : Event) : bool :=
  match ev with
  | MouseMove _ => false
  | _ => true
  end.

(** The click records a snapshot: Add Tube always does, the remove button
    does when some tube carries the id. *)
Definition records (ev : Event) (st : State) : bool :=
  match ev with
  | ClickAddTube _ => true
  | ClickRemoveTube tubeId =>
      existsb (fun t0 => String.eqb (Tube.id t0) tubeId) (tubes st)
  | _ => false
  end.

(** Two tubes, the second removed, the removal undone twice: the cursor is
    on the first of three entries. *)
Definition undone_twice : list Event :=
  [ClickAddTube "A"; ClickAddTube "B"; ClickRemoveTube "B"; ClickUndo;
   ClickUndo]%string.


(** ** Tube.createGeometry *)






(** ** The camera *)

(** [Math.atan2] on reals. *)
Definition atan2 (y x : R) : R :=
  match total_order_T x 0 with
  | inleft (left _) =>            (* x < 0 *)
      if Rle_dec 0 y then atan (y / x) + PI else atan (y / x) - PI
  | inleft (right _) =>           (* x = 0 *)
      match total_order_T y 0 with
      | inleft (left _) => - (PI / 2)
      | inleft (right _) => 0
      | inright _ => PI / 2
      end
  | inright _ => atan (y / x)     (* 0 < x *)
  end.

(** three.js [clamp(value, min, max)] *)
Definition clamp (value lo hi : R) : R := Rmax lo (Rmin hi value).

Module Spherical.
Record t : Type := mk { radius : R; phi : R; theta : R }.

(** [Spherical.setFromVector3] *)
Definition setFromVector3 (v : Vector3.t) : t :=
  let r := sqrt (Vector3.x v * Vector3.x v + Vector3.y v * Vector3.y v
                 + Vector3.z v * Vector3.z v) in
  if Req_dec_T r 0 then mk r 0 0
  else mk r (acos (clamp (Vector3.y v / r) (-1) 1))
          (atan2 (Vector3.x v) (Vector3.z v)).
End Spherical.

(** [Vector3.setFromSpherical] *)
Definition setFromSpherical (s : Spherical.t) : Vector3.t :=
  let sinPhiRadius := sin (Spherical.phi s) * Spherical.radius s in
  Vector3.mk (sinPhiRadius * sin (Spherical.theta s))
             (cos (Spherical.phi s) * Spherical.radius s)
             (sinPhiRadius * cos (Spherical.theta s)).

(** [Vector3.multiplyScalar] *)
Definition multiplyScalar (v : Vector3.t) (s : R) : Vector3.t :=
  Vector3.mk (Vector3.x v * s) (Vector3.y v * s) (Vector3.z v * s).

Module Camera.
(** The position of the camera and [controls.previousMousePosition]; the
    camera always looks at the origin. *)
Record t : Type := mk {
  position : Vector3.t;
  previousMousePosition : R * R
}.

Definition rotationSpeed : R := 5 / 1000.
Definition zoomSpeed : R := 1 / 10.

(** The camera the mount effect creates. *)
Definition initial : t := mk (Vector3.mk 200 200 200) (0, 0).

(** The rotation branch of [onMouseMove], taken when no tube is dragged and
    [controls.isDragging] is set. *)
Definition rotate (clientX clientY : R) (c : t) : t :=
  let deltaX := clientX - fst (previousMousePosition c) in
  let deltaY := clientY - snd (previousMousePosition c) in
  let spherical := Spherical.setFromVector3 (position c) in
  let theta := Spherical.theta spherical - deltaX * rotationSpeed in
  let phi := Spherical.phi spherical - deltaY * rotationSpeed in
  let phi := Rmax (1 / 10) (Rmin (PI - 1 / 10) phi) in
  mk (setFromSpherical (Spherical.mk (Spherical.radius spherical) phi theta))
     (clientX, clientY).

Definition onWheel (deltaY : R) (c : t) : t :=
  let zoomDelta := deltaY * zoomSpeed in
  mk (multiplyScalar (position c) (1 + zoomDelta * (1 / 100)))
     (previousMousePosition c).

Definition resetCamera (c : t) : t :=
  mk (Vector3.mk 200 200 200) (previousMousePosition c).

Inductive Event : Type :=
| Wheel (deltaY : R)
| Rotate (clientX clientY : R)
| Reset.

Definition handle (ev : Event) (c : t) : t :=
  match ev with
  | Wheel deltaY => onWheel deltaY c
  | Rotate clientX clientY => rotate clientX clientY c
  | Reset => resetCamera c
  end.

Definition run (evs : list Event) (c : t) : t :=
  fold_left (fun c0 ev => handle ev c0) evs c.


(** No Reset among the events. *)
Definition no_reset (ev : Event) : bool :=
  match ev with
  | Reset => false
  | _ => true
  end.
End Camera.

(** ** The first version of addTube *)

Module Legacy.
(** The component before the history and the drag were added: tubes are
    created and removed, never moved, so a pose is a value. *)
Record Tube : Type := mkTube {
  width : R;
  height : R;
  thickness : R;
  length : R;
  position : Vector3.t;
  rotation : Euler.t;
  id : string
}.

Record State : Type := mkState {
  mounted : bool;
  tubes : list Tube;
  selectedTube : option string;
  tubeType : string;
  p_width : R;
  p_height : R;
  p_thickness : R;
  p_length : R;
  angle : R
}.

(** The new tube is put with its centre on the end face of the last one
    and turned by the raw angle. *)
Definition addTube (newId : string) (st : State) : State :=
  if negb (mounted st) then st else
  let w := if String.eqb (tubeType st) "square" then p_width st else p_width st in
  let h := if String.eqb (tubeType st) "square" then p_width st else p_height st in
  let newTube :=
    match App.last_elem (tubes st) with
    | Some lastTube =>
        let angleRad := angle st * PI / 180 in
        let offset :=
          applyEuler (Vector3.mk 0 0 (length lastTube / 2)) (rotation lastTube) in
        mkTube w h (p_thickness st) (p_length st)
               (Vector3.add (position lastTube) offset)
               (Euler.mk (Euler.x (rotation lastTube))
                         (Euler.y (rotation lastTube) + angleRad)
                         (Euler.z (rotation lastTube)))
               newId
    | None =>
        mkTube w h (p_thickness st) (p_length st)
               (Vector3.mk 0 0 0) (Euler.mk 0 0 0) newId
    end in
  mkState (mounted st) (tubes st ++ [newTube]) (selectedTube st) (tubeType st)
          (p_width st) (p_height st) (p_thickness st) (p_length st) (angle st).

(** The legacy state that holds what a state of the current version shows. *)
Definition of_segment (s : Segment) : Tube :=
  mkTube (seg_width s) (seg_height s) (seg_thickness s) (seg_length s)
         (seg_position s) (seg_rotation s) (seg_id s).

Definition of_state (st : App.State) : State :=
  mkState (App.mounted st) (map of_segment (assembly st)) (App.selectedTube st)
          (App.tubeType st) (App.width st) (App.height st) (App.thickness st)
          (App.length st) (App.angle st).
End Legacy.

(** * Proofs *)

(** ** snapAngleFunc *)

Ltac by_abs := unfold Rabs; repeat destruct Rcase_abs; lra.

Lemma closer_cases (a prev curr : R) :
  (closer a prev curr = curr /\ Rabs (curr - a) < Rabs (prev - a)) \/
  (closer a prev curr = prev /\ Rabs (prev - a) <= Rabs (curr - a)).
Proof.
  unfold closer. destruct (Rlt_dec _ _) as [Hlt | Hge].
  - left. split; [reflexivity | exact Hlt].
  - right. split; [reflexivity | lra].
Qed.

(** The invariant of the reduction over an ascending list: the accumulator
    is a seen element, no seen element is closer, and a seen element just as
    close is not smaller. *)
Lemma fold_closer_nearest (a : R) (rest : list R) :
  forall (seen : list R) (acc : R),
    In acc seen ->
    (forall s, In s seen ->
               Rabs (acc - a) <= Rabs (s - a) /\
               (Rabs (s - a) = Rabs (acc - a) -> acc <= s)) ->
    (forall s c, In s seen -> In c rest -> s <= c) ->
    StronglySorted Rle rest ->
    let r := fold_left (closer a) rest acc in
    In r (seen ++ rest) /\
    forall s, In s (seen ++ rest) ->
              Rabs (r - a) <= Rabs (s - a) /\
              (Rabs (s - a) = Rabs (r - a) -> r <= s).
Proof.
  induction rest as [| c rest IH]; intros seen acc Hin Hmin Hasc Hsorted; cbn.
  - rewrite app_nil_r. split; assumption.
  - assert (Hstep :
      let acc' := closer a acc c in
      In acc' (seen ++ [c]) /\
      forall s, In s (seen ++ [c]) ->
                Rabs (acc' - a) <= Rabs (s - a) /\
                (Rabs (s - a) = Rabs (acc' - a) -> acc' <= s)).
    { cbn. destruct (closer_cases a acc c) as [[-> Hlt] | [-> Hle]].
      - split; [apply in_or_app; right; left; reflexivity |].
        intros s Hs. apply in_app_or in Hs. destruct Hs as [Hs | [<- | []]].
        + destruct (Hmin s Hs) as [H1 _]. split; [lra | intros; lra].
        + split; [lra | intros; lra].
      - split; [apply in_or_app; left; exact Hin |].
        intros s Hs. apply in_app_or in Hs. destruct Hs as [Hs | [<- | []]].
        + apply Hmin, Hs.
        + split; [exact Hle |]. intros _. apply Hasc; [exact Hin | left; reflexivity]. }
    cbn in Hstep. destruct Hstep as [Hin' Hmin'].
    apply StronglySorted_inv in Hsorted. destruct Hsorted as [Hsorted Hhead].
    specialize (IH (seen ++ [c]) (closer a acc c) Hin' Hmin').
    rewrite <- app_assoc in IH. cbn in IH. apply IH; [| exact Hsorted].
    intros s c' Hs Hc'. apply in_app_or in Hs. destruct Hs as [Hs | [<- | []]].
    + apply Hasc; [exact Hs | right; exact Hc'].
    + rewrite Forall_forall in Hhead. apply Hhead, Hc'.
Qed.

Lemma snapAngles_sorted : StronglySorted Rle snapAngles.
Proof.
  unfold snapAngles.
  repeat (apply SSorted_cons; [| repeat (apply Forall_cons; [lra |]); apply Forall_nil]).
  apply SSorted_nil.
Qed.

Lemma snapAngleFunc_nearest (st : State) (a : R) :
  snapToAngle st = true -> nearest_snap a (snapAngleFunc st a).
Proof.
  intros Hsnap. unfold snapAngleFunc. rewrite Hsnap. cbn [negb].
  pose proof snapAngles_sorted as Hs. unfold snapAngles in *.
  apply StronglySorted_inv in Hs. destruct Hs as [Hs Hhead].
  apply (fold_closer_nearest a _ [0] 0).
  - left; reflexivity.
  - intros s [<- | []]. split; [lra | intros; lra].
  - intros s c [<- | []] Hc. rewrite Forall_forall in Hhead. apply Hhead, Hc.
  - exact Hs.
Qed.

Lemma snapAngleFunc_off (st : State) (a : R) :
  snapToAngle st = false -> snapAngleFunc st a = a.
Proof. intros H. unfold snapAngleFunc. rewrite H. reflexivity. Qed.

Lemma closer_take (a prev curr : R) :
  Rabs (curr - a) < Rabs (prev - a) -> closer a prev curr = curr.
Proof. intros H. unfold closer. destruct (Rlt_dec _ _); [reflexivity | contradiction]. Qed.

Lemma closer_keep (a prev curr : R) :
  Rabs (prev - a) <= Rabs (curr - a) -> closer a prev curr = prev.
Proof. intros H. unfold closer. destruct (Rlt_dec _ _); [lra | reflexivity]. Qed.

(** Evaluating the reduction at a given angle, innermost step first: each
    comparison of two distances between numerals is decided by [by_abs]. *)
Ltac eval_snap :=
  unfold snapAngles; cbn [negb fold_left];
  repeat match goal with
         | |- context [closer ?a (IZR ?p) (IZR ?c)] =>
             first [ rewrite (closer_take a (IZR p) (IZR c)) by by_abs
                   | rewrite (closer_keep a (IZR p) (IZR c)) by by_abs ]
         end;
  try reflexivity.

Lemma snap_37 (st : State) : snapToAngle st = true -> snapAngleFunc st 37 = 30.
Proof. intros H. unfold snapAngleFunc. rewrite H. eval_snap. Qed.

Lemma snap_45 (st : State) : snapToAngle st = true -> snapAngleFunc st 45 = 45.
Proof. intros H. unfold snapAngleFunc. rewrite H. eval_snap. Qed.

Lemma snap_30 (st : State) : snapToAngle st = true -> snapAngleFunc st 30 = 30.
Proof. intros H. unfold snapAngleFunc. rewrite H. eval_snap. Qed.

Lemma snap_15 (st : State) : snapToAngle st = true -> snapAngleFunc st 15 = 0.
Proof. intros H. unfold snapAngleFunc. rewrite H. eval_snap. Qed.

Lemma snap_0 (st : State) : snapToAngle st = true -> snapAngleFunc st 0 = 0.
Proof. intros H. unfold snapAngleFunc. rewrite H. eval_snap. Qed.

Lemma snap_90 (st : State) : snapToAngle st = true -> snapAngleFunc st 90 = 90.
Proof. intros H. unfold snapAngleFunc. rewrite H. eval_snap. Qed.

(** ** The store *)

Lemma upd_length {A : Type} (l : list A) (i : nat) (v : A) :
  List.length (upd l i v) = List.length l.
Proof.
  revert i. induction l as [| a l IH]; intros [| i]; cbn; try reflexivity.
  now rewrite IH.
Qed.

Lemma nth_upd_same {A : Type} (l : list A) (i : nat) (v d : A) :
  (i < List.length l)%nat -> nth i (upd l i v) d = v.
Proof.
  revert i. induction l as [| a l IH]; intros [| i] H; cbn in *; try lia.
  - reflexivity.
  - apply IH. lia.
Qed.

Lemma nth_upd_other {A : Type} (l : list A) (i j : nat) (v d : A) :
  i <> j -> nth j (upd l i v) d = nth j l d.
Proof.
  revert i j. induction l as [| a l IH]; intros [| i] [| j] H; cbn;
    try reflexivity; try congruence.
  apply IH. congruence.
Qed.

Lemma extends_refl (h : Heap) : extends h h.
Proof. split; exists []; now rewrite app_nil_r. Qed.

Lemma extends_trans (h1 h2 h3 : Heap) :
  extends h1 h2 -> extends h2 h3 -> extends h1 h3.
Proof.
  intros [[v1 Hv1] [e1 He1]] [[v2 Hv2] [e2 He2]]. split.
  - exists (v1 ++ v2). now rewrite Hv2, Hv1, app_assoc.
  - exists (e1 ++ e2). now rewrite He2, He1, app_assoc.
Qed.

Lemma extends_valid (h h' : Heap) (tube : Tube.t) :
  extends h h' -> valid h tube -> valid h' tube.
Proof.
  intros [[vs Hv] [es He]] [Hp Hr]. unfold valid.
  rewrite Hv, He, !length_app. lia.
Qed.

Lemma extends_segment (h h' : Heap) (tube : Tube.t) :
  extends h h' -> valid h tube -> segment h' tube = segment h tube.
Proof.
  intros [[vs Hv] [es He]] [Hp Hr]. unfold segment, get_vec, get_euler.
  rewrite Hv, He, !app_nth1 by assumption. reflexivity.
Qed.

Lemma extends_segments (h h' : Heap) (ts : list Tube.t) :
  extends h h' -> Forall (valid h) ts ->
  map (segment h') ts = map (segment h) ts.
Proof.
  intros He Hv. apply map_ext_in. intros tube Hin.
  rewrite Forall_forall in Hv. apply extends_segment; auto.
Qed.

Lemma new_Vector3_extends (v : Vector3.t) (h : Heap) :
  extends h (snd (new_Vector3 v h)).
Proof. split; [exists [v] | exists []]; cbn; now rewrite ?app_nil_r. Qed.

Lemma new_Euler_extends (e : Euler.t) (h : Heap) :
  extends h (snd (new_Euler e h)).
Proof. split; [exists [] | exists [e]]; cbn; now rewrite ?app_nil_r. Qed.

(** ** clone and the snapshot *)

Lemma clone_extends (tube : Tube.t) (h : Heap) :
  extends h (snd (Tube.clone tube h)).
Proof.
  unfold Tube.clone. cbn.
  split; [exists [get_vec h (Tube.position tube)]
         | exists [get_euler h (Tube.rotation tube)]]; reflexivity.
Qed.

(** A clone reads like the original but holds two new objects. *)
Lemma clone_spec (tube : Tube.t) (h : Heap) :
  let c := fst (Tube.clone tube h) in
  let h' := snd (Tube.clone tube h) in
  segment h' c = segment h tube /\
  Tube.position c = List.length (vectors h) /\
  Tube.rotation c = List.length (eulers h) /\
  List.length (vectors h') = S (List.length (vectors h)) /\
  List.length (eulers h') = S (List.length (eulers h)).
Proof.
  unfold Tube.clone, segment, get_vec, get_euler. cbn.
  rewrite !nth_middle, !length_app. cbn. repeat split; lia.
Qed.

Lemma map_clone_extends (ts : list Tube.t) :
  forall h, extends h (snd (map_clone ts h)).
Proof.
  induction ts as [| t0 ts IH]; intros h; cbn [map_clone].
  - apply extends_refl.
  - pose proof (clone_extends t0 h) as H0.
    destruct (Tube.clone t0 h) as [c h1]. cbn in H0.
    specialize (IH h1). destruct (map_clone ts h1) as [cs h2]. cbn in *.
    eapply extends_trans; eassumption.
Qed.

Lemma map_clone_spec (ts : list Tube.t) :
  forall h,
    let cs := fst (map_clone ts h) in
    let h' := snd (map_clone ts h) in
    map Tube.position cs = seq (List.length (vectors h)) (List.length ts) /\
    map Tube.rotation cs = seq (List.length (eulers h)) (List.length ts) /\
    List.length (vectors h') = (List.length (vectors h) + List.length ts)%nat /\
    List.length (eulers h') = (List.length (eulers h) + List.length ts)%nat /\
    (Forall (valid h) ts -> map (segment h') cs = map (segment h) ts).
Proof.
  induction ts as [| t0 ts IH]; intros h; cbn [map_clone].
  - cbn. repeat split; try lia.
  - pose proof (clone_spec t0 h) as H0. pose proof (clone_extends t0 h) as E0.
    destruct (Tube.clone t0 h) as [c h1]. cbn in H0, E0.
    destruct H0 as (Hseg & Hp & Hr & Hlv & Hle).
    pose proof (IH h1) as H1. pose proof (map_clone_extends ts h1) as E1.
    destruct (map_clone ts h1) as [cs h2]. cbn in *.
    destruct H1 as (Hps & Hrs & Hlv2 & Hle2 & Hsegs).
    rewrite Hps, Hrs, Hp, Hr, Hlv, Hle, Hlv2, Hle2, Hlv, Hle.
    repeat split; try lia.
    intros Hvalid. inversion Hvalid as [| ? ? Hv0 Hvs]; subst.
    f_equal.
    + rewrite <- Hseg. apply extends_segment; [exact E1 |].
      unfold valid. rewrite Hp, Hr, Hlv, Hle. lia.
    + rewrite Hsegs.
      * apply extends_segments; assumption.
      * eapply Forall_impl; [| exact Hvs]. intros a. apply extends_valid, E0.
Qed.

Lemma valid_mono (h h' : Heap) (tube : Tube.t) :
  (List.length (vectors h) <= List.length (vectors h'))%nat ->
  (List.length (eulers h) <= List.length (eulers h'))%nat ->
  valid h tube -> valid h' tube.
Proof. unfold valid. lia. Qed.

Lemma valid_all_mono (h h' : Heap) (ts : list Tube.t) :
  (List.length (vectors h) <= List.length (vectors h'))%nat ->
  (List.length (eulers h) <= List.length (eulers h'))%nat ->
  Forall (valid h) ts -> Forall (valid h') ts.
Proof.
  intros Hv He. apply Forall_impl. intros a. now apply valid_mono.
Qed.

Lemma snapshot_valid (ts : list Tube.t) (h : Heap) :
  Forall (valid (snd (map_clone ts h))) (fst (map_clone ts h)).
Proof.
  destruct (map_clone_spec ts h) as (Hp & Hr & Hlv & Hle & _).
  apply Forall_forall. intros c Hin. unfold valid. rewrite Hlv, Hle.
  assert (In (Tube.position c) (seq (List.length (vectors h)) (List.length ts)))
    as H1 by (rewrite <- Hp; now apply in_map).
  assert (In (Tube.rotation c) (seq (List.length (eulers h)) (List.length ts)))
    as H2 by (rewrite <- Hr; now apply in_map).
  apply in_seq in H1, H2. lia.
Qed.

Lemma snapshot_separate (ts : list Tube.t) (h : Heap) :
  separate (fst (map_clone ts h)).
Proof.
  destruct (map_clone_spec ts h) as (Hp & _).
  unfold separate. rewrite Hp. apply seq_NoDup.
Qed.

Lemma snapshot_length (ts : list Tube.t) (h : Heap) :
  List.length (fst (map_clone ts h)) = List.length ts.
Proof.
  destruct (map_clone_spec ts h) as (Hp & _).
  rewrite <- (length_map Tube.position), Hp. apply length_seq.
Qed.

Lemma In_slice0 {A : Type} (l : list A) (e : Z) (a : A) :
  In a (slice0 l e) -> In a l.
Proof.
  unfold slice0. intros H.
  rewrite <- (firstn_skipn (Z.to_nat
    (if (e <? 0)%Z then Z.max (Z.of_nat (List.length l) + e) 0
     else Z.min e (Z.of_nat (List.length l)))) l).
  apply in_or_app. now left.
Qed.

Lemma slice0_all {A : Type} (l : list A) :
  slice0 l (Z.of_nat (List.length l) - 1 + 1) = l.
Proof.
  unfold slice0.
  replace (Z.of_nat (List.length l) - 1 + 1)%Z with (Z.of_nat (List.length l)) by lia.
  destruct (Z.ltb_spec (Z.of_nat (List.length l)) 0); [lia |].
  rewrite Z.min_id, Nat2Z.id. apply firstn_all.
Qed.

(** [addToHistory] written with projections. *)
Lemma addToHistory_eq (hc : list (list Tube.t)) (ic : Z) (ts : list Tube.t)
      (st : State) :
  addToHistory hc ic ts st =
  setHistoryIndex
    (setHistory (set_heap st (snd (map_clone ts (heap st))))
                (slice0 hc (ic + 1) ++ [fst (map_clone ts (heap st))]))
    (Z.of_nat (List.length (slice0 hc (ic + 1)
                            ++ [fst (map_clone ts (heap st))])) - 1).
Proof.
  unfold addToHistory. destruct (map_clone ts (heap st)). reflexivity.
Qed.

Lemma WF_addToHistory (hc : list (list Tube.t)) (ic : Z) (ts : list Tube.t)
      (st : State) :
  Forall (valid (heap st)) (tubes st) ->
  separate (tubes st) ->
  Forall (Forall (valid (heap st))) hc ->
  Forall separate hc ->
  WF (addToHistory hc ic ts st).
Proof.
  intros Ht Hs Hh Hhs. rewrite addToHistory_eq.
  destruct (map_clone_extends ts (heap st)) as [[vs Hv] [es He]].
  assert (Hlv : (List.length (vectors (heap st))
                 <= List.length (vectors (snd (map_clone ts (heap st)))))%nat)
    by (rewrite Hv, length_app; lia).
  assert (Hle : (List.length (eulers (heap st))
                 <= List.length (eulers (snd (map_clone ts (heap st)))))%nat)
    by (rewrite He, length_app; lia).
  constructor; cbn.
  - eapply valid_all_mono; eassumption.
  - apply Forall_app. split.
    + apply Forall_forall. intros e Hin. apply In_slice0 in Hin.
      rewrite Forall_forall in Hh.
      eapply valid_all_mono; [exact Hlv | exact Hle | auto].
    + constructor; [apply snapshot_valid | constructor].
  - exact Hs.
  - apply Forall_app. split.
    + apply Forall_forall. intros e Hin. apply In_slice0 in Hin.
      rewrite Forall_forall in Hhs. auto.
    + constructor; [apply snapshot_separate | constructor].
Qed.

Lemma WF_init : WF init.
Proof. constructor; cbn; constructor. Qed.

(** ** The handlers keep the state well formed *)

Lemma last_elem_In {A : Type} (l : list A) (a : A) :
  last_elem l = Some a -> In a l.
Proof.
  unfold last_elem, index. destruct (_ <? 0)%Z; [discriminate |].
  apply nth_error_In.
Qed.

Lemma placeAfter_lengths (lastTube newTube : Tube.t) (a : R) (h : Heap) :
  List.length (vectors (placeAfter lastTube newTube a h)) = List.length (vectors h) /\
  List.length (eulers (placeAfter lastTube newTube a h)) = List.length (eulers h).
Proof. unfold placeAfter. cbn. rewrite !upd_length. split; reflexivity. Qed.

Lemma WF_addTube (newId : string) (st : State) : WF st -> WF (addTube newId st).
Proof.
  intros [Ht Hh Hs Hhs]. unfold addTube.
  destruct (mounted st); cbn [negb]; [| constructor; assumption].
  cbn [new_Vector3 new_Euler].
  set (newTube := Tube.new _ _ _ _ _ _ _).
  set (h2 := mkHeap _ _).
  set (h3 := match last_elem (tubes st) with Some _ => _ | None => _ end).
  assert (Hlen : List.length (vectors h3) = S (List.length (vectors (heap st))) /\
                 List.length (eulers h3) = S (List.length (eulers (heap st)))).
  { assert (H2 : List.length (vectors h2) = S (List.length (vectors (heap st))) /\
                 List.length (eulers h2) = S (List.length (eulers (heap st))))
      by (subst h2; cbn; rewrite !length_app; cbn; lia).
    subst h3. destruct (last_elem (tubes st)); [| exact H2].
    destruct (placeAfter_lengths t newTube
                (if snapToAngle st then snapAngleFunc st (angle st) else angle st) h2).
    lia. }
  destruct Hlen as [Hlv Hle].
  apply WF_addToHistory; cbn.
  - apply Forall_app. split.
    + eapply valid_all_mono; [| | exact Ht]; lia.
    + constructor; [| constructor]. unfold valid. subst newTube. cbn. lia.
  - unfold separate. rewrite map_app. cbn.
    apply NoDup_app; [exact Hs | repeat constructor; auto |].
    intros p Hin [<- | []]. apply in_map_iff in Hin.
    destruct Hin as (tube & Hp & Hin). rewrite Forall_forall in Ht.
    destruct (Ht tube Hin) as [Hlt _]. lia.
  - eapply Forall_impl; [| exact Hh]. intros e.
    apply valid_all_mono; lia.
  - exact Hhs.
Qed.

Lemma separate_filter (f : Tube.t -> bool) (ts : list Tube.t) :
  separate ts -> separate (filter f ts).
Proof.
  unfold separate. induction ts as [| t0 ts IH]; cbn; intros H; [exact H |].
  inversion H as [| ? ? Hnotin Hrest]; subst.
  destruct (f t0); cbn.
  - constructor; [| now apply IH].
    intros Hin. apply Hnotin. apply in_map_iff in Hin.
    destruct Hin as (u & Hu & Hin). apply filter_In in Hin.
    apply in_map_iff. exists u. tauto.
  - now apply IH.
Qed.

Lemma Forall_filter_keep {A : Type} (P : A -> Prop) (f : A -> bool) (l : list A) :
  Forall P l -> Forall P (filter f l).
Proof.
  rewrite !Forall_forall. intros H a Hin. apply filter_In in Hin. apply H, Hin.
Qed.

Lemma WF_removeTube (tubeId : string) (st : State) :
  WF st -> WF (removeTube tubeId st).
Proof.
  intros Hwf. pose proof Hwf as [Ht Hh Hs Hhs]. unfold removeTube.
  destruct (mounted st); cbn [negb]; [| exact Hwf].
  destruct (find _ (tubes st)); [| exact Hwf].
  apply WF_addToHistory;
    destruct (strict_eq (selectedTube st) (Some tubeId)); cbn;
    auto using Forall_filter_keep, separate_filter.
Qed.

Lemma WF_clearAll (st : State) : WF st -> WF (clearAll st).
Proof.
  intros Hwf. unfold clearAll. destruct (mounted st); cbn [negb]; [| exact Hwf].
  constructor; cbn; constructor.
Qed.

Lemma index_In {A : Type} (l : list A) (i : Z) (a : A) :
  index l i = Some a -> In a l.
Proof.
  unfold index. destruct (i <? 0)%Z; [discriminate |]. apply nth_error_In.
Qed.

Lemma restoreTube_positions (entry : list Tube.t) :
  map Tube.position (map restoreTube entry) = map Tube.position entry.
Proof. rewrite map_map. reflexivity. Qed.

Lemma restoreTube_valid (h : Heap) (entry : list Tube.t) :
  Forall (valid h) entry -> Forall (valid h) (map restoreTube entry).
Proof.
  intros H. apply Forall_map. eapply Forall_impl; [| exact H].
  intros a Ha. exact Ha.
Qed.

(** Restoring an entry of the history of a well-formed state. *)
Lemma WF_restoreState (st st1 : State) (i : Z) (j : Z) :
  WF st ->
  restoreState (index (history st) i) st = Some st1 ->
  WF (setHistoryIndex st1 j).
Proof.
  intros Hwf. pose proof Hwf as [Ht Hh Hs Hhs]. unfold restoreState.
  destruct (mounted st); cbn [negb].
  - destruct (index (history st) i) as [entry |] eqn:Hi; [| discriminate].
    intros [= <-]. apply index_In in Hi.
    rewrite Forall_forall in Hh, Hhs.
    constructor; cbn.
    + apply restoreTube_valid. auto.
    + apply Forall_forall. exact Hh.
    + unfold separate. rewrite restoreTube_positions. apply Hhs, Hi.
    + apply Forall_forall. exact Hhs.
  - intros [= <-]. constructor; assumption.
Qed.

Lemma WF_undo (st : State) : WF st -> WF (undo st).
Proof.
  intros Hwf. unfold undo. destruct (0 <? historyIndex st)%Z; [| exact Hwf].
  destruct (restoreState _ st) as [st1 |] eqn:Hr; [| exact Hwf].
  eapply WF_restoreState; eassumption.
Qed.

Lemma WF_redo (st : State) : WF st -> WF (redo st).
Proof.
  intros Hwf. unfold redo. destruct (_ <? _)%Z; [| exact Hwf].
  destruct (restoreState _ st) as [st1 |] eqn:Hr; [| exact Hwf].
  eapply WF_restoreState; eassumption.
Qed.

Lemma WF_onMouseDown (button : Z) (shiftKey : bool) (hit : option string)
      (st : State) :
  WF st -> WF (onMouseDown button shiftKey hit st).
Proof.
  intros Hwf. pose proof Hwf as [Ht Hh Hs Hhs]. unfold onMouseDown.
  destruct (mounted st); cbn [negb]; [| exact Hwf].
  destruct ((button =? 0)%Z && negb shiftKey)%bool, hit,
           ((button =? 1)%Z || (button =? 0)%Z && shiftKey)%bool;
    constructor; assumption.
Qed.

Lemma dragTubes_lengths (d : option string) (v : Vector3.t) (ts : list Tube.t) :
  forall h,
    List.length (vectors (dragTubes d v ts h)) = List.length (vectors h) /\
    eulers (dragTubes d v ts h) = eulers h.
Proof.
  induction ts as [| t0 ts IH]; intros h; cbn [dragTubes]; [split; reflexivity |].
  destruct (IH (if strict_eq (Some (Tube.id t0)) d
                then set_vec h (Tube.position t0) v else h)) as [H1 H2].
  rewrite H1, H2. destruct (strict_eq _ d); cbn; rewrite ?upd_length; split; reflexivity.
Qed.

Lemma WF_onMouseMove (ray : Ray.t) (st : State) :
  WF st -> WF (onMouseMove ray st).
Proof.
  intros Hwf. pose proof Hwf as [Ht Hh Hs Hhs]. unfold onMouseMove.
  destruct (mounted st); cbn [negb]; [| exact Hwf].
  destruct (truthy (draggedTubeRef st)); [| exact Hwf].
  set (v := match Ray.intersectPlane ray floor with Some p => p | None => _ end).
  destruct (dragTubes_lengths (draggedTubeRef st) v (tubes st) (heap st)) as [Hlv Hle].
  constructor; cbn.
  - eapply valid_all_mono; [| | exact Ht]; rewrite ?Hlv, ?Hle; lia.
  - eapply Forall_impl; [| exact Hh]. intros e.
    apply valid_all_mono; rewrite ?Hlv, ?Hle; lia.
  - exact Hs.
  - exact Hhs.
Qed.

Lemma WF_onMouseUp (st : State) : WF st -> WF (onMouseUp st).
Proof.
  intros Hwf. pose proof Hwf as [Ht Hh Hs Hhs]. unfold onMouseUp.
  destruct (truthy (draggedTubeRef (set_isDragging st false))).
  - assert (WF (addToHistory [] (-1)%Z (tubesRef (set_isDragging st false))
                             (set_isDragging st false))) as [Ht' Hh' Hs' Hhs']
      by (apply WF_addToHistory; cbn; auto).
    constructor; assumption.
  - constructor; assumption.
Qed.

Lemma setSelected_positions (f : Tube.t -> bool) (ts : list Tube.t) :
  map Tube.position (map (fun tube => Tube.setSelected tube (f tube)) ts)
  = map Tube.position ts.
Proof. rewrite map_map. reflexivity. Qed.

Lemma WF_render_effects (st : State) : WF st -> WF (render_effects st).
Proof.
  intros [Ht Hh Hs Hhs]. unfold render_effects. constructor; cbn.
  - apply Forall_map. eapply Forall_impl; [| exact Ht]. intros a Ha. exact Ha.
  - exact Hh.
  - unfold separate. rewrite setSelected_positions. exact Hs.
  - exact Hhs.
Qed.

Lemma committed_render_effects (st : State) : committed (render_effects st).
Proof.
  unfold committed, render_effects. cbn. split; [reflexivity |].
  apply Forall_map. apply Forall_forall. intros tube _. reflexivity.
Qed.

Lemma WF_handle (ev : Event) (st : State) : WF st -> WF (handle ev st).
Proof.
  intros Hwf. destruct ev; cbn [handle];
    auto using WF_addTube, WF_removeTube, WF_clearAll, WF_undo, WF_redo,
               WF_onMouseDown, WF_onMouseMove, WF_onMouseUp;
    destruct Hwf; constructor; assumption.
Qed.

Lemma WF_step (st : State) (ev : Event) : WF st -> WF (step st ev).
Proof. intros H. apply WF_render_effects, WF_handle, H. Qed.

Lemma committed_init : committed init.
Proof. split; [reflexivity | constructor]. Qed.

(** Every state the event loop reaches is well formed and committed. *)
Lemma run_invariant (evs : list Event) :
  forall st, WF st -> committed st ->
             WF (run evs st) /\ committed (run evs st).
Proof.
  induction evs as [| ev evs IH]; intros st Hwf Hc; cbn; [split; assumption |].
  apply IH; [apply WF_step, Hwf | apply committed_render_effects].
Qed.

(** On a committed state the effects change nothing. *)
Lemma render_effects_committed (st : State) :
  committed st -> render_effects st = st.
Proof.
  intros [Href Hsel]. unfold render_effects.
  assert (Hmap : map (fun tube => Tube.setSelected tube
                        (strict_eq (Some (Tube.id tube)) (selectedTube st)))
                     (tubes st) = tubes st).
  { rewrite <- (map_id (tubes st)) at 2. apply map_ext_in.
    intros tube Hin. rewrite Forall_forall in Hsel.
    rewrite <- (Hsel tube Hin). destruct tube; reflexivity. }
  rewrite Hmap. destruct st; cbn in *. subst. reflexivity.
Qed.

(** ** The drag only translates *)

Lemma strict_eq_true (a b : option string) : strict_eq a b = true <-> a = b.
Proof.
  destruct a as [x |], b as [y |]; cbn; split; try congruence; try reflexivity.
  - intros H. apply String.eqb_eq in H. congruence.
  - intros [= ->]. apply String.eqb_refl.
Qed.

Lemma NoDup_map_inj {A B : Type} (f : A -> B) (l : list A) (a b : A) :
  NoDup (map f l) -> In a l -> In b l -> f a = f b -> a = b.
Proof.
  induction l as [| c l IH]; cbn; intros Hnd Ha Hb Hf; [contradiction |].
  inversion Hnd as [| ? ? Hnotin Hrest]; subst.
  destruct Ha as [-> | Ha], Hb as [-> | Hb]; auto.
  - exfalso. apply Hnotin. rewrite Hf. now apply in_map.
  - exfalso. apply Hnotin. rewrite <- Hf. now apply in_map.
Qed.

Lemma Forall2_map_same {A B C : Type} (P : B -> C -> Prop)
      (f : A -> B) (g : A -> C) (l : list A) :
  (forall a, In a l -> P (f a) (g a)) -> Forall2 P (map f l) (map g l).
Proof.
  induction l as [| a l IH]; cbn; intros H; constructor; auto.
Qed.

(** A position object that no dragged tube holds keeps its coordinates. *)
Lemma dragTubes_frame (d : option string) (v : Vector3.t) (q : ref)
      (ts : list Tube.t) :
  forall h,
    (forall tube, In tube ts -> strict_eq (Some (Tube.id tube)) d = true ->
                  Tube.position tube <> q) ->
    get_vec (dragTubes d v ts h) q = get_vec h q.
Proof.
  induction ts as [| t0 ts IH]; intros h Hother; cbn [dragTubes]; [reflexivity |].
  rewrite IH by (intros tube Hin; apply Hother; now right).
  destruct (strict_eq (Some (Tube.id t0)) d) eqn:Hd; [| reflexivity].
  unfold get_vec, set_vec. cbn. apply nth_upd_other.
  apply Hother; [now left | exact Hd].
Qed.

Lemma step_MouseMove_tubes (ray : Ray.t) (st : State) :
  committed st ->
  tubes (step st (MouseMove ray)) = tubes st /\
  eulers (heap (step st (MouseMove ray))) = eulers (heap st) /\
  forall q,
    (forall tube, In tube (tubes st) ->
                  strict_eq (Some (Tube.id tube)) (draggedTubeRef st) = true ->
                  Tube.position tube <> q) ->
    get_vec (heap (step st (MouseMove ray))) q = get_vec (heap st) q.
Proof.
  intros Hc. unfold step. cbn [handle]. unfold onMouseMove.
  destruct (mounted st); cbn [negb];
    [| rewrite render_effects_committed by exact Hc; auto].
  destruct (truthy (draggedTubeRef st));
    [| rewrite render_effects_committed by exact Hc; auto].
  set (v := match Ray.intersectPlane ray floor with Some p => p | None => _ end).
  pose proof (render_effects_committed st Hc) as Hre.
  unfold render_effects in *. cbn.
  apply (f_equal tubes) in Hre. cbn in Hre.
  split; [exact Hre |]. split.
  - apply dragTubes_lengths.
  - intros q Hq. now apply dragTubes_frame.
Qed.

(** C9. A pointer move, in whatever state the application has reached,
    leaves the id, the four dimensions, the rotation and the selection flag
    of every segment as they were, and leaves a segment that is not the
    dragged one unchanged altogether: only the position of the dragged
    segment can differ. *)
Theorem drag_move_only_translates_dragged (evs : list Event) (ray : Ray.t) :
  let st := run evs init in
  let st' := step st (MouseMove ray) in
  Forall2 (fun s s' =>
             same_but_position s s' /\
             (Some (seg_id s) <> draggedTubeRef st -> s' = s))
          (assembly st) (assembly st').
Proof.
  intros st st'.
  destruct (run_invariant evs init WF_init committed_init) as [Hwf Hc].
  fold st in Hwf, Hc.
  destruct (step_MouseMove_tubes ray st Hc) as (Htubes & Heul & Hvec).
  fold st' in Htubes, Heul, Hvec. clearbody st'. clearbody st.
  unfold assembly. rewrite Htubes.
  apply Forall2_map_same. intros tube Hin. split.
  - unfold same_but_position, segment, get_euler. cbn. rewrite Heul.
    repeat split; reflexivity.
  - cbn. intros Hnot. unfold segment, get_euler. rewrite Heul. f_equal.
    apply Hvec. intros other Hother Hdragged Hsame.
    apply strict_eq_true in Hdragged.
    assert (other = tube)
      by (eapply NoDup_map_inj; [apply (wf_separate st Hwf) | | |]; eassumption).
    subst other. contradiction.
Qed.

(** ** Undo and redo *)

Lemma addTube_eq (newId : string) (st : State) :
  mounted st = true ->
  addTube newId st =
  addToHistory (history st) (historyIndex st) (tubes (appended newId st))
               (appended newId st).
Proof. intros Hm. unfold addTube. rewrite Hm. reflexivity. Qed.

Lemma appended_fields (newId : string) (st : State) :
  history (appended newId st) = history st /\
  historyIndex (appended newId st) = historyIndex st /\
  mounted (appended newId st) = mounted st /\
  selectedTube (appended newId st) = selectedTube st.
Proof. repeat split. Qed.

Lemma appended_valid (newId : string) (st : State) :
  WF st -> Forall (valid (heap (appended newId st))) (tubes (appended newId st)).
Proof.
  intros [Ht Hh Hs Hhs]. unfold appended. cbn [new_Vector3 new_Euler].
  set (newTube := Tube.new _ _ _ _ _ _ _).
  set (h2 := mkHeap _ _).
  set (h3 := match last_elem (tubes st) with Some _ => _ | None => _ end).
  assert (Hlen : List.length (vectors h3) = S (List.length (vectors (heap st))) /\
                 List.length (eulers h3) = S (List.length (eulers (heap st)))).
  { assert (H2 : List.length (vectors h2) = S (List.length (vectors (heap st))) /\
                 List.length (eulers h2) = S (List.length (eulers (heap st))))
      by (subst h2; cbn; rewrite !length_app; cbn; lia).
    subst h3. destruct (last_elem (tubes st)); [| exact H2].
    destruct (placeAfter_lengths t newTube
                (if snapToAngle st then snapAngleFunc st (angle st) else angle st) h2).
    lia. }
  destruct Hlen as [Hlv Hle]. cbn.
  apply Forall_app. split.
  - eapply valid_all_mono; [| | exact Ht]; lia.
  - constructor; [| constructor]. unfold valid. subst newTube. cbn. lia.
Qed.

Lemma last_elem_snoc {A : Type} (l : list A) (a : A) :
  last_elem (l ++ [a]) = Some a.
Proof.
  unfold last_elem, index. rewrite length_app. cbn.
  destruct (Z.ltb_spec (Z.of_nat (List.length l + 1) - 1) 0); [lia |].
  replace (Z.to_nat (Z.of_nat (List.length l + 1) - 1)) with (List.length l) by lia.
  rewrite nth_error_app2 by lia. now rewrite Nat.sub_diag.
Qed.

(** Recording the live tubes leaves the cursor on an entry that reads like
    them, whatever history the closure held. *)
Lemma Recorded_addToHistory (hc : list (list Tube.t)) (ic : Z) (st : State) :
  mounted st = true ->
  Forall (valid (heap st)) (tubes st) ->
  Recorded (addToHistory hc ic (tubes st) st).
Proof.
  intros Hm Hv. rewrite addToHistory_eq. constructor; cbn.
  - exact Hm.
  - reflexivity.
  - rewrite last_elem_snoc.
    destruct (map_clone_spec (tubes st) (heap st)) as (_ & _ & _ & _ & Hseg).
    rewrite <- !(map_map (segment _) unselected). f_equal.
    rewrite (Hseg Hv). symmetry.
    apply extends_segments; [apply map_clone_extends | exact Hv].
Qed.

Lemma unselected_setSelected (h : Heap) (tube : Tube.t) (b : bool) :
  unselected (segment h (Tube.setSelected tube b)) = unselected (segment h tube).
Proof. reflexivity. Qed.

Lemma Recorded_render_effects (st : State) :
  Recorded st -> Recorded (render_effects st).
Proof.
  intros [Hm Hc Hl]. unfold render_effects. constructor; cbn; auto.
  destruct (last_elem (history st)).
  - rewrite Hl, map_map. reflexivity.
  - rewrite Hl. reflexivity.
Qed.

Lemma Recorded_edit (ev : Event) (st : State) :
  is_edit ev = true -> WF st -> Recorded st -> Recorded (handle ev st).
Proof.
  intros Hedit Hwf Hrec. pose proof Hrec as [Hm Hc Hl].
  destruct ev; try discriminate; cbn [handle];
    try (constructor; assumption).
  - (* Add Tube *)
    rewrite addTube_eq by exact Hm.
    apply Recorded_addToHistory; [exact Hm | now apply appended_valid].
  - (* remove *)
    unfold removeTube. rewrite Hm. cbn [negb].
    destruct (find _ (tubes st)); [| exact Hrec].
    set (filtered := filter _ (tubes st)).
    set (st2 := if strict_eq _ _ then _ else _).
    assert (Htubes : tubes st2 = filtered)
      by (subst st2; destruct (strict_eq _ _); reflexivity).
    assert (Hheap : heap st2 = heap st)
      by (subst st2; destruct (strict_eq _ _); reflexivity).
    assert (Hm2 : mounted st2 = true)
      by (subst st2; destruct (strict_eq _ _); exact Hm).
    rewrite <- Htubes. apply Recorded_addToHistory; [exact Hm2 |].
    rewrite Htubes, Hheap. apply Forall_filter_keep, (wf_tubes st Hwf).
  - (* Clear All *)
    unfold clearAll. rewrite Hm. cbn [negb].
    constructor; cbn; [exact Hm | reflexivity | reflexivity].
Qed.

Lemma edits_invariant (evs : list Event) :
  forall st, forallb is_edit evs = true ->
             WF st -> committed st -> Recorded st ->
             WF (run evs st) /\ committed (run evs st) /\ Recorded (run evs st).
Proof.
  unfold run.
  induction evs as [| ev evs IH]; intros st Hedit Hwf Hc Hrec;
    cbn [fold_left forallb] in *; [auto |].
  apply andb_prop in Hedit. destruct Hedit as [Hev Hevs].
  apply IH; [exact Hevs | apply WF_step, Hwf | apply committed_render_effects |].
  apply Recorded_render_effects, Recorded_edit; assumption.
Qed.

Lemma Recorded_init : Recorded init.
Proof. constructor; reflexivity. Qed.

Lemma index_in_range {A : Type} (l : list A) (i : Z) :
  (0 <= i < Z.of_nat (List.length l))%Z -> exists a, index l i = Some a.
Proof.
  intros Hi. unfold index. destruct (Z.ltb_spec i 0); [lia |].
  destruct (nth_error l (Z.to_nat i)) as [a |] eqn:Hn; [now exists a |].
  apply nth_error_None in Hn. lia.
Qed.

(** The tubes a restored entry becomes once the effects have run. *)
Lemma step_undo_fields (st : State) :
  mounted st = true ->
  (0 < historyIndex st < Z.of_nat (List.length (history st)))%Z ->
  let st' := step st ClickUndo in
  heap st' = heap st /\ history st' = history st /\
  selectedTube st' = selectedTube st /\ mounted st' = true /\
  historyIndex st' = (historyIndex st - 1)%Z.
Proof.
  intros Hm Hi. unfold step. cbn [handle]. unfold undo.
  destruct (Z.ltb_spec 0 (historyIndex st)); [| lia].
  destruct (index_in_range (history st) (historyIndex st - 1)) as [entry He]; [lia |].
  unfold restoreState. rewrite Hm, He. cbn. auto.
Qed.

Lemma step_redo_fields (st : State) :
  mounted st = true ->
  (0 <= historyIndex st + 1 < Z.of_nat (List.length (history st)))%Z ->
  let st' := step st ClickRedo in
  heap st' = heap st /\ history st' = history st /\
  selectedTube st' = selectedTube st /\ mounted st' = true /\
  historyIndex st' = (historyIndex st + 1)%Z /\
  exists entry,
    index (history st) (historyIndex st + 1) = Some entry /\
    tubes st' = map (fun tube => Tube.setSelected tube
                       (strict_eq (Some (Tube.id tube)) (selectedTube st)))
                    (map restoreTube entry).
Proof.
  intros Hm Hi. unfold step. cbn [handle]. unfold redo.
  destruct (Z.ltb_spec (historyIndex st) (Z.of_nat (List.length (history st)) - 1)); [| lia].
  destruct (index_in_range (history st) (historyIndex st + 1)) as [entry He]; [lia |].
  unfold restoreState. rewrite Hm, He. cbn. repeat split; auto.
  exists entry. split; reflexivity.
Qed.

(** The undo loop stops with the cursor on the first entry, after as many
    clicks as the cursor was high, and touches neither the store nor the
    history. *)
Lemma undo_until_exhausted_spec (fuel : nat) :
  forall st,
    mounted st = true ->
    (historyIndex st < Z.of_nat (List.length (history st)))%Z ->
    (historyIndex st <= Z.of_nat fuel)%Z ->
    let st1 := fst (undo_until_exhausted fuel st) in
    let k := snd (undo_until_exhausted fuel st) in
    canUndo st1 = false /\
    heap st1 = heap st /\ history st1 = history st /\
    selectedTube st1 = selectedTube st /\ mounted st1 = true /\
    ((0 < historyIndex st)%Z ->
     historyIndex st1 = 0%Z /\ k = Z.to_nat (historyIndex st)) /\
    ((historyIndex st <= 0)%Z -> st1 = st /\ k = O).
Proof.
  induction fuel as [| fuel IH]; intros st Hm Hlt Hfuel; cbn [undo_until_exhausted].
  - cbn. unfold canUndo. destruct (Z.ltb_spec 0 (historyIndex st)); [lia |].
    repeat split; auto; lia.
  - destruct (canUndo st) eqn:Hcu; unfold canUndo in Hcu.
    + apply Z.ltb_lt in Hcu.
      destruct (step_undo_fields st Hm) as (Hh & Hhist & Hsel & Hm' & Hidx); [lia |].
      specialize (IH (step st ClickUndo) Hm').
      rewrite Hhist, Hidx, Hh, Hsel in IH.
      destruct (undo_until_exhausted fuel (step st ClickUndo)) as [st1 k].
      cbn [fst snd] in *.
      destruct IH as (Hcan & H1 & H2 & H3 & H4 & Hgt & Hle); try lia.
      split; [exact Hcan |]. repeat (split; [assumption |]). split; [| lia].
      intros _. destruct (Z.ltb_spec 0 (historyIndex st - 1)) as [Hp | Hn].
      * destruct (Hgt Hp) as [-> ->]. split; [reflexivity | lia].
      * destruct (Hle Hn) as [-> ->]. split; lia.
    + apply Z.ltb_ge in Hcu. cbn [fst snd]. unfold canUndo.
      destruct (Z.ltb_spec 0 (historyIndex st)); [lia |].
      repeat split; auto; lia.
Qed.

Lemma run_redo_spec (k : nat) :
  forall st,
    mounted st = true ->
    (0 <= historyIndex st)%Z ->
    (historyIndex st + Z.of_nat (S k) < Z.of_nat (List.length (history st)))%Z ->
    let st' := run (repeat ClickRedo (S k)) st in
    heap st' = heap st /\ history st' = history st /\
    selectedTube st' = selectedTube st /\
    exists entry,
      index (history st) (historyIndex st + Z.of_nat (S k)) = Some entry /\
      tubes st' = map (fun tube => Tube.setSelected tube
                         (strict_eq (Some (Tube.id tube)) (selectedTube st)))
                      (map restoreTube entry).
Proof.
  induction k as [| k IH]; intros st Hm Hpos Hlt.
  - cbn [repeat run fold_left].
    destruct (step_redo_fields st Hm) as (Hh & Hhist & Hsel & _ & _ & entry & He & Ht); [lia |].
    repeat split; auto. exists entry. split; [exact He | exact Ht].
  - change (run (repeat ClickRedo (S (S k))) st)
      with (run (repeat ClickRedo (S k)) (step st ClickRedo)).
    destruct (step_redo_fields st Hm) as (Hh & Hhist & Hsel & Hm' & Hidx & _); [lia |].
    specialize (IH (step st ClickRedo) Hm').
    rewrite Hhist, Hidx, Hh, Hsel in IH.
    destruct IH as (H1 & H2 & H3 & entry & He & Ht); try lia.
    repeat split; auto. exists entry. split; [| exact Ht].
    rewrite <- He. f_equal. lia.
Qed.

Lemma map_eq_via {A B C : Type} (u1 : A -> C) (u2 : B -> C)
      (f : A -> Segment) (g : B -> Segment) (P : B -> Prop) :
  (forall a b, u1 a = u2 b -> P b -> f a = g b) ->
  forall l1 l2, map u1 l1 = map u2 l2 -> Forall P l2 -> map f l1 = map g l2.
Proof.
  intros Hpt. induction l1 as [| a l1 IH]; intros [| b l2] Hmap HP;
    cbn in *; try discriminate; [reflexivity |].
  injection Hmap as Hab Hrest. inversion HP; subst.
  f_equal; auto.
Qed.

(** C2. After any sequence of parameter changes, Add Tube, remove and Clear
    All from the initial state: clicking Undo while it is enabled brings the
    application to a state where Undo is disabled, and clicking Redo as many
    times as Undo was clicked gives back the assembly there was before the
    undos, segment for segment: id, dimensions, position, rotation,
    selection flag, in the same order. *)
Theorem undo_all_then_redo_restores (evs : list Event) :
  forallb is_edit evs = true ->
  let st := run evs init in
  let st1 := fst (undo_until_exhausted (List.length (history st)) st) in
  let k := snd (undo_until_exhausted (List.length (history st)) st) in
  canUndo st1 = false /\
  assembly (run (repeat ClickRedo k) st1) = assembly st.
Proof.
  intros Hedit st.
  destruct (edits_invariant evs init Hedit WF_init committed_init Recorded_init)
    as (Hwf & Hc & [Hm Hcur Hlast]).
  fold st in Hwf, Hc, Hm, Hcur, Hlast. clearbody st.
  destruct (undo_until_exhausted_spec (List.length (history st)) st Hm)
    as (Hcan & Hh & Hhist & Hsel & Hm1 & Hgt & Hle); try lia.
  cbv zeta. split; [exact Hcan |].
  destruct (Z.ltb_spec 0 (historyIndex st)) as [Hpos | Hnpos].
  - destruct (Hgt Hpos) as [Hidx1 Hk]. rewrite Hk.
    destruct (Z.to_nat (historyIndex st)) as [| k'] eqn:Hk'; [lia |].
    destruct (run_redo_spec k' _ Hm1) as (H1 & H2 & H3 & entry & He & Ht).
    { lia. } { rewrite Hhist, Hidx1. lia. }
    unfold assembly. rewrite Ht, H1, Hh. rewrite Hhist, Hidx1 in He.
    assert (Hentry : last_elem (history st) = Some entry).
    { unfold last_elem. rewrite <- He. f_equal. lia. }
    rewrite Hentry in Hlast. rewrite !map_map, Hsel.
    destruct Hc as [_ Hflags].
    eapply map_eq_via; [| exact Hlast | exact Hflags].
    intros c tube Hsame Hflag. cbn in Hflag.
    unfold unselected, segment in Hsame. injection Hsame as Hid Hw Hhgt Hth Hlen Hp Hr.
    unfold segment, restoreTube. cbn. rewrite Hflag, Hid, Hw, Hhgt, Hth, Hlen, Hp, Hr.
    reflexivity.
  - destruct (Hle Hnpos) as [-> ->]. reflexivity.
Qed.

(** ** removeTube with an unknown id *)

Lemma find_none_of_absent (tubeId : string) (ts : list Tube.t) :
  (forall tube, In tube ts -> Tube.id tube <> tubeId) ->
  find (fun t0 => String.eqb (Tube.id t0) tubeId) ts = None.
Proof.
  induction ts as [| t0 ts IH]; cbn; intros H; [reflexivity |].
  destruct (String.eqb_spec (Tube.id t0) tubeId) as [Heq | Hne].
  - exfalso. apply (H t0); [now left | exact Heq].
  - apply IH. intros tube Hin. apply H. now right.
Qed.

(** C10. [removeTube] with an id that no tube of the assembly carries gives
    back the very state it was called in: tubes, selection, history and
    cursor, store and every other field; once the effects of the previous
    render have run, the whole click is a no-op as well. *)
Theorem removeTube_unknown_id_is_noop (tubeId : string) (st : State) :
  (forall tube, In tube (tubes st) -> Tube.id tube <> tubeId) ->
  removeTube tubeId st = st /\
  (committed st -> step st (ClickRemoveTube tubeId) = st).
Proof.
  intros Habsent.
  assert (Hrm : removeTube tubeId st = st).
  { unfold removeTube. destruct (mounted st); cbn [negb]; [| reflexivity].
    now rewrite find_none_of_absent. }
  split; [exact Hrm |].
  intros Hc. unfold step. cbn [handle]. rewrite Hrm.
  now apply render_effects_committed.
Qed.

(** ** Export *)

(** C7 as amended. The exported array has one record per segment, in chain
    order; every record has the seven keys type, width, height, thickness,
    length, position, rotation, where type is the tube type selected in the
    panel at the time of the export and the others are the segment's own
    values, position and rotation as nested x, y, z objects. *)
Theorem exportData_records (st : State) :
  exists l, exportData st = JArray l /\
            Forall2 (record_of (tubeType st)) (assembly st) l.
Proof.
  unfold exportData, assembly. exists (map (exportTube st) (tubes st)).
  split; [reflexivity |].
  apply Forall2_map_same. intros tube _.
  unfold record_of, exportTube, segment. cbn. repeat split.
Qed.

(** ** Dimensions are not validated *)

(** C6 as amended. Add Tube never fails and never checks a dimension: it
    appends one tube that carries the width, thickness and length of the
    panel as they are (the height too, or the width again for a square
    tube), whatever their values. *)
Theorem addTube_stores_any_dimensions (newId : string) (st : State) :
  mounted st = true ->
  exists tube,
    tubes (step st (ClickAddTube newId)) =
    map (fun t0 => Tube.setSelected t0
                     (strict_eq (Some (Tube.id t0)) (selectedTube st)))
        (tubes st) ++ [tube] /\
    Tube.id tube = newId /\
    Tube.width tube = width st /\
    Tube.height tube
    = (if String.eqb (tubeType st) "square" then width st else height st) /\
    Tube.thickness tube = thickness st /\
    Tube.length tube = length st.
Proof.
  intros Hm. unfold step. cbn [handle]. rewrite addTube_eq by exact Hm.
  rewrite addToHistory_eq. unfold render_effects, appended. cbn.
  rewrite map_app. cbn. eexists. split; [reflexivity |].
  cbn. destruct (String.eqb (tubeType st) "square"); repeat split.
Qed.

Lemma addTube_stores_any_dimensions_witness :
  mounted (setThickness init 100) = true /\
  exists tube,
    tubes (step (setThickness init 100) (ClickAddTube "a")) =
    map (fun t0 => Tube.setSelected t0
                     (strict_eq (Some (Tube.id t0))
                                (selectedTube (setThickness init 100))))
        (tubes (setThickness init 100)) ++ [tube] /\
    Tube.id tube = "a"%string /\
    Tube.width tube = width (setThickness init 100) /\
    Tube.height tube
    = (if String.eqb (tubeType (setThickness init 100)) "square"
       then width (setThickness init 100) else height (setThickness init 100)) /\
    Tube.thickness tube = thickness (setThickness init 100) /\
    Tube.length tube = length (setThickness init 100).
Proof.
  split; [reflexivity |].
  apply (addTube_stores_any_dimensions "a" (setThickness init 100)). reflexivity.
Defined.

(** ** The pose of the appended tube *)

Lemma last_elem_map_snoc {A B : Type} (f : A -> B) (l : list A) (a : A) :
  last_elem (map f (l ++ [a])) = Some (f a).
Proof. rewrite map_app. cbn. apply last_elem_snoc. Qed.

Lemma extends_get_vec (h h' : Heap) (p : ref) :
  extends h h' -> (p < List.length (vectors h))%nat -> get_vec h' p = get_vec h p.
Proof.
  intros [[vs Hv] _] Hp. unfold get_vec. rewrite Hv. now apply app_nth1.
Qed.

Lemma extends_get_euler (h h' : Heap) (r : ref) :
  extends h h' -> (r < List.length (eulers h))%nat -> get_euler h' r = get_euler h r.
Proof.
  intros [_ [es He]] Hr. unfold get_euler. rewrite He. now apply app_nth1.
Qed.

(** What the new tube's two objects hold when [addTube] hands over to
    [addToHistory]. *)
Lemma appended_pose (newId : string) (st : State) :
  WF st ->
  get_vec (heap (appended newId st)) (List.length (vectors (heap st)))
  = fst (placeNext st) /\
  get_euler (heap (appended newId st)) (List.length (eulers (heap st)))
  = snd (placeNext st).
Proof.
  intros Hwf. unfold appended, placeNext. cbn [new_Vector3 new_Euler].
  destruct (last_elem (tubes st)) as [lastTube |] eqn:Hlast.
  - apply last_elem_In in Hlast.
    pose proof (wf_tubes st Hwf) as Hv. rewrite Forall_forall in Hv.
    destruct (Hv lastTube Hlast) as [Hp Hr].
    unfold placeAfter, get_vec, get_euler, set_vec, set_euler. cbn.
    rewrite !nth_upd_same by (rewrite ?upd_length, length_app; cbn; lia).
    rewrite !app_nth1 by assumption. split; reflexivity.
  - unfold get_vec, get_euler. cbn. rewrite !nth_middle. split; reflexivity.
Qed.

Lemma appended_tubes (newId : string) (st : State) :
  tubes (appended newId st) =
  tubes st ++
  [Tube.new (width st)
            (if String.eqb (tubeType st) "square" then width st else height st)
            (thickness st) (length st)
            (List.length (vectors (heap st))) (List.length (eulers (heap st)))
            newId].
Proof. unfold appended. cbn. destruct (String.eqb _ _); reflexivity. Qed.

(** The last segment after Add Tube has the id drawn for it and the pose of
    [placeNext]. *)
Lemma step_addTube_last (newId : string) (st : State) :
  WF st -> mounted st = true ->
  exists s,
    last_elem (assembly (step st (ClickAddTube newId))) = Some s /\
    seg_id s = newId /\
    seg_position s = fst (placeNext st) /\
    seg_rotation s = snd (placeNext st).
Proof.
  intros Hwf Hm. destruct (appended_pose newId st Hwf) as [Hpos Hrot].
  unfold step. cbn [handle]. rewrite addTube_eq by exact Hm.
  rewrite addToHistory_eq. unfold assembly, render_effects.
  cbn [tubes heap selectedTube set_tubesRef setTubes setHistoryIndex setHistory
       set_heap].
  set (h3 := heap (appended newId st)) in *.
  set (h' := snd (map_clone _ h3)).
  assert (Hext : extends h3 h') by apply map_clone_extends.
  assert (Hlen : List.length (vectors h3) = S (List.length (vectors (heap st))) /\
                 List.length (eulers h3) = S (List.length (eulers (heap st)))).
  { subst h3. unfold appended. cbn [new_Vector3 new_Euler].
    destruct (last_elem (tubes st)); cbn; rewrite ?upd_length, !length_app; cbn; lia. }
  rewrite appended_tubes, map_map, last_elem_map_snoc. eexists. split; [reflexivity |].
  unfold segment. cbn.
  rewrite extends_get_vec with (h := h3) by (auto; lia).
  rewrite extends_get_euler with (h := h3) by (auto; lia).
  auto.
Qed.

(** ** Snapping and the pose *)

(** The angle [addTube] uses. *)
Lemma snapAngleFunc_setAngle (st : State) (a b : R) :
  snapAngleFunc (setAngle st a) b = snapAngleFunc st b.
Proof. reflexivity. Qed.

(** Two angles that snap to the same value give the same assembly. *)
Lemma addTube_setAngle_assembly (newId : string) (st : State) (a b : R) :
  (if snapToAngle st then snapAngleFunc st a else a)
  = (if snapToAngle st then snapAngleFunc st b else b) ->
  assembly (step (setAngle st a) (ClickAddTube newId))
  = assembly (step (setAngle st b) (ClickAddTube newId)).
Proof.
  intros Hfinal. unfold step. cbn [handle]. unfold addTube.
  change (snapAngleFunc (setAngle st a)) with (snapAngleFunc st).
  change (snapAngleFunc (setAngle st b)) with (snapAngleFunc st).
  cbn [setAngle mounted snapToAngle angle heap tubes tubeType width height
       thickness length history historyIndex].
  destruct (mounted st); cbn [negb]; [| reflexivity].
  rewrite Hfinal. unfold addToHistory. cbn.
  match goal with
  | |- context [map_clone ?l ?h] => destruct (map_clone l h) as [cs h']
  end.
  reflexivity.
Qed.

Lemma addTube_same_final_angle (newId : string) (st : State) (a b : R) :
  (if snapToAngle st then snapAngleFunc st a else a)
  = (if snapToAngle st then snapAngleFunc st b else b) ->
  assembly (run [ChangeAngle a; ClickAddTube newId] st)
  = assembly (run [ChangeAngle b; ClickAddTube newId] st).
Proof.
  intros Hfinal. unfold run. cbn [fold_left].
  change (step st (ChangeAngle a)) with (setAngle (render_effects st) a).
  change (step st (ChangeAngle b)) with (setAngle (render_effects st) b).
  apply addTube_setAngle_assembly. exact Hfinal.
Qed.

(** C3 as amended. With snapping on, the angle is replaced by the value of
    the snap set nearest to it, the smaller one on a tie.  So 37 degrees
    gives the assembly that 30 degrees gives (37 is 7 away from 30 and 8
    away from 45), and 15 degrees, halfway between 0 and 30, gives the
    assembly that 0 degrees gives. *)
Theorem snap_takes_nearest_angle (st : State) (a : R) (newId : string) :
  snapToAngle st = true ->
  nearest_snap a (snapAngleFunc st a) /\
  assembly (run [ChangeAngle 37; ClickAddTube newId] st)
  = assembly (run [ChangeAngle 30; ClickAddTube newId] st) /\
  assembly (run [ChangeAngle 15; ClickAddTube newId] st)
  = assembly (run [ChangeAngle 0; ClickAddTube newId] st).
Proof.
  intros Hsnap. split; [now apply snapAngleFunc_nearest |].
  split; apply addTube_same_final_angle; rewrite Hsnap.
  - now rewrite snap_37, snap_30.
  - now rewrite snap_15, snap_0.
Qed.

Lemma snap_takes_nearest_angle_witness :
  snapToAngle one_tube = true /\
  nearest_snap 37 (snapAngleFunc one_tube 37) /\
  assembly (run [ChangeAngle 37; ClickAddTube "B"] one_tube)
  = assembly (run [ChangeAngle 30; ClickAddTube "B"] one_tube) /\
  assembly (run [ChangeAngle 15; ClickAddTube "B"] one_tube)
  = assembly (run [ChangeAngle 0; ClickAddTube "B"] one_tube).
Proof.
  split; [reflexivity |].
  apply (snap_takes_nearest_angle one_tube 37 "B"). reflexivity.
Defined.

(** ** The two-tube scenario *)

Lemma one_tube_fields :
  tubes one_tube = [Tube.mk 50 30 3 100 0%nat 0%nat "A" false] /\
  get_vec (heap one_tube) 0%nat = Vector3.mk 0 0 0 /\
  get_euler (heap one_tube) 0%nat = Euler.mk 0 0 0 /\
  snapToAngle one_tube = true /\ angle one_tube = 90 /\
  length one_tube = 100 /\ mounted one_tube = true.
Proof. repeat split; reflexivity. Qed.

Lemma WF_one_tube : WF one_tube.
Proof. apply (run_invariant [ClickAddTube "A"] init WF_init committed_init). Qed.

Lemma sin_cos_PI4 : sin (PI / 4) * cos (PI / 4) = 1 / 2.
Proof.
  pose proof (sin_2a (PI / 4)) as H.
  replace (2 * (PI / 4)) with (PI / 2) in H by lra.
  rewrite sin_PI2 in H. lra.
Qed.

Lemma sin_sin_PI4 : sin (PI / 4) * sin (PI / 4) = 1 / 2.
Proof.
  pose proof (cos_2a_sin (PI / 4)) as H.
  replace (2 * (PI / 4)) with (PI / 2) in H by lra.
  rewrite cos_PI2 in H. lra.
Qed.

(** The pose of a tube of the default length joined to [one_tube] once the
    angle has been snapped to [deg] degrees: rotation only. *)
Lemma placeNext_one_tube_rotation (st : State) (deg : R) :
  tubes st = tubes one_tube -> heap st = heap one_tube ->
  (if snapToAngle st then snapAngleFunc st (angle st) else angle st) = deg ->
  snd (placeNext st) = Euler.mk 0 (0 + deg * PI / 180) 0.
Proof.
  intros Ht Hh Hdeg. destruct one_tube_fields as (Htubes & _ & He & _).
  unfold placeNext. rewrite Ht, Htubes. cbn [last_elem index List.length].
  cbn -[PI snapAngleFunc get_euler get_vec applyEuler Rdiv Rmult Rplus IZR].
  rewrite Hdeg, Hh, He. reflexivity.
Qed.

Lemma placeNext_one_tube :
  placeNext one_tube = (Vector3.mk 50 0 50, Euler.mk 0 (PI / 2) 0).
Proof.
  destruct one_tube_fields as (Htubes & Hv & He & Hsnap & Hangle & Hlen & _).
  unfold placeNext. rewrite Htubes. cbn [last_elem index List.length].
  cbn -[PI snapAngleFunc get_euler get_vec applyEuler Rdiv Rmult Rplus IZR
        one_tube Vector3.add].
  rewrite Hsnap, Hangle, Hlen, Hv, He, (snap_90 one_tube Hsnap).
  unfold applyEuler, applyQuaternion, Quaternion.setFromEuler, Vector3.add.
  cbn -[PI Rdiv Rmult Rplus Rminus IZR sin cos].
  replace (0 / 2) with 0 by lra.
  replace ((0 + 90 * PI / 180) / 2) with (PI / 4) by lra.
  rewrite sin_0, cos_0.
  pose proof sin_cos_PI4 as Hsc. pose proof sin_sin_PI4 as Hss.
  set (s := sin (PI / 4)) in *. set (c := cos (PI / 4)) in *.
  f_equal; [f_equal | f_equal; lra].
  - transitivity (100 * (s * c)); [field | rewrite Hsc; lra].
  - lra.
  - transitivity (100 - 100 * (s * s)); [field | rewrite Hss; lra].
Qed.

Lemma two_tubes_last :
  exists B, last_elem (assembly two_tubes) = Some B /\
            seg_id B = "B"%string /\
            seg_position B = Vector3.mk 50 0 50 /\
            seg_rotation B = Euler.mk 0 (PI / 2) 0.
Proof.
  destruct one_tube_fields as (_ & _ & _ & _ & _ & _ & Hm).
  destruct (step_addTube_last "B" one_tube WF_one_tube Hm)
    as (B & Hlast & Hid & Hpos & Hrot).
  rewrite placeNext_one_tube in Hpos, Hrot.
  exists B. repeat split; assumption.
Qed.

(** C4 as amended. From the empty assembly with the panel defaults
    (50 x 30 x 3 x 100, angle 90, snapping on), adding A and then B leaves B
    at position (50, 0, 50), exactly so over the reals, with rotation
    (0, PI/2, 0): a yaw of 90 degrees.  A spans z from -50 to 50, the joint
    is its end face (0, 0, 50), and B, turned to point along x, has its
    centre half its length further along x. *)
Theorem second_tube_pose :
  exists B, last_elem (assembly two_tubes) = Some B /\
            seg_position B = Vector3.mk 50 0 50 /\
            seg_rotation B = Euler.mk 0 (90 * PI / 180) 0.
Proof.
  destruct two_tubes_last as (B & Hlast & _ & Hpos & Hrot).
  exists B. repeat split; try assumption.
  rewrite Hrot. f_equal. lra.
Qed.

(** The position of B is not within a millimetre of (0, 0, 150). *)
Lemma second_tube_not_at_0_0_150 :
  ~ exists B, last_elem (assembly two_tubes) = Some B /\
              close_to 1 (seg_position B) (Vector3.mk 0 0 150).
Proof.
  intros (B & Hlast & Hclose).
  destruct two_tubes_last as (B' & Hlast' & _ & Hpos & _).
  rewrite Hlast in Hlast'. injection Hlast' as <-.
  rewrite Hpos in Hclose. destruct Hclose as (Hx & _). cbn in Hx.
  revert Hx. by_abs.
Qed.

Lemma committed_one_tube : committed one_tube.
Proof. apply (run_invariant [ClickAddTube "A"] init WF_init committed_init). Qed.

Lemma step_ChangeAngle_committed (st : State) (a : R) :
  committed st -> step st (ChangeAngle a) = setAngle st a.
Proof.
  intros Hc. unfold step. cbn [handle].
  change (render_effects (setAngle st a)) with (setAngle (render_effects st) a).
  now rewrite render_effects_committed.
Qed.

Lemma WF_setAngle (st : State) (a : R) : WF st -> WF (setAngle st a).
Proof. intros [Ht Hh Hs Hhs]. constructor; assumption. Qed.

(** Joined to [one_tube] with the angle set to [a], the new tube is turned
    about Y by the snapped angle. *)
Lemma one_tube_joint_rotation (a deg : R) :
  snapAngleFunc one_tube a = deg ->
  exists s,
    last_elem (assembly (run [ChangeAngle a; ClickAddTube "B"] one_tube)) = Some s /\
    seg_rotation s = Euler.mk 0 (0 + deg * PI / 180) 0.
Proof.
  intros Hdeg. destruct one_tube_fields as (_ & _ & _ & Hsnap & _ & _ & Hm).
  unfold run. cbn [fold_left].
  rewrite (step_ChangeAngle_committed one_tube a committed_one_tube).
  destruct (step_addTube_last "B" (setAngle one_tube a)) as (s & Hs & _ & _ & Hrot).
  { apply WF_setAngle, WF_one_tube. }
  { cbn [setAngle mounted]. exact Hm. }
  exists s. split; [exact Hs |]. rewrite Hrot.
  apply placeNext_one_tube_rotation.
  - cbn [setAngle tubes]. reflexivity.
  - cbn [setAngle heap]. reflexivity.
  - cbn [setAngle snapToAngle angle]. rewrite Hsnap.
    change (snapAngleFunc (setAngle one_tube a) a) with (snapAngleFunc one_tube a).
    exact Hdeg.
Qed.

(** 37 degrees and 45 degrees do not give the same pose: joined to
    [one_tube], the new tube is turned by 30 degrees in one case and by 45
    in the other. *)
Lemma snap_37_differs_from_45 :
  assembly (run [ChangeAngle 37; ClickAddTube "B"] one_tube)
  <> assembly (run [ChangeAngle 45; ClickAddTube "B"] one_tube).
Proof.
  intros Heq. destruct one_tube_fields as (_ & _ & _ & Hsnap & _).
  destruct (one_tube_joint_rotation 37 30 (snap_37 one_tube Hsnap)) as (s1 & Hs1 & Hr1).
  destruct (one_tube_joint_rotation 45 45 (snap_45 one_tube Hsnap)) as (s2 & Hs2 & Hr2).
  rewrite Heq, Hs2 in Hs1. injection Hs1 as ->.
  rewrite Hr1 in Hr2. injection Hr2 as Hy.
  pose proof PI_RGT_0. lra.
Qed.

(** Evaluation of a state: the structure is computed, the arithmetic on
    reals is left as it stands. *)
Ltac eval_state :=
  cbv -[Rplus Rmult Rminus Ropp Rinv Rdiv IZR Rlt Rle Rgt Rge Rmin Rabs
        Req_dec_T Rge_dec Rlt_dec Rle_dec PI sin cos].

(** A tube of thickness 100 in a 50 x 30 section is in the assembly. *)
Lemma oversized_thickness_enters_assembly :
  exists s, In s (assembly thick_tube) /\ ~ dimension_invariant s.
Proof.
  exists (mkSegment "A" 50 30 100 100 (Vector3.mk 0 0 0) (Euler.mk 0 0 0) false).
  split.
  - eval_state. left. reflexivity.
  - eval_state. intros (_ & _ & _ & _ & H).
    revert H. unfold Rmin. destruct (Rle_dec 50 30); lra.
Qed.

(** The record exported for [one_tube] starts with a type key. *)
Lemma export_record_has_type_key :
  exists item, In item (items (exportData one_tube)) /\
               keys item <> described_keys.
Proof.
  exists (JObject
            [("type", JString "rectangular"); ("width", JNumber 50);
             ("height", JNumber 30); ("thickness", JNumber 3);
             ("length", JNumber 100); ("position", xyz 0 0 0);
             ("rotation", xyz 0 0 0)]%string).
  split.
  - eval_state. left. reflexivity.
  - eval_state. discriminate.
Qed.

(** ** What a pointer move writes *)

Lemma nth_upd_cases {A : Type} (l : list A) (i j : nat) (v d : A) :
  nth j (upd l i v) d = v \/ nth j (upd l i v) d = nth j l d.
Proof.
  revert i j. induction l as [| a l IH]; intros [| i] [| j]; cbn; auto.
Qed.

Lemma dragTubes_keeps (d : option string) (v : Vector3.t) (q : ref)
      (ts : list Tube.t) :
  forall h, get_vec h q = v -> get_vec (dragTubes d v ts h) q = v.
Proof.
  induction ts as [| t0 ts IH]; intros h Hq; cbn [dragTubes]; [exact Hq |].
  apply IH. destruct (strict_eq (Some (Tube.id t0)) d); [| exact Hq].
  unfold get_vec, set_vec in *. cbn.
  destruct (nth_upd_cases (vectors h) (Tube.position t0) q v (Vector3.mk 0 0 0))
    as [H | H]; rewrite H; [reflexivity | exact Hq].
Qed.

(** The position object of a dragged tube ends up holding [v]. *)
Lemma dragTubes_hit (d : option string) (v : Vector3.t) (tube : Tube.t)
      (ts : list Tube.t) :
  forall h,
    In tube ts ->
    strict_eq (Some (Tube.id tube)) d = true ->
    (Tube.position tube < List.length (vectors h))%nat ->
    get_vec (dragTubes d v ts h) (Tube.position tube) = v.
Proof.
  induction ts as [| t0 ts IH]; intros h Hin Hd Hp; cbn [dragTubes]; [contradiction |].
  destruct Hin as [-> | Hin].
  - rewrite Hd. apply dragTubes_keeps.
    unfold get_vec, set_vec. cbn. now apply nth_upd_same.
  - apply IH; [exact Hin | exact Hd |].
    destruct (strict_eq (Some (Tube.id t0)) d); [| exact Hp].
    unfold set_vec. cbn. now rewrite upd_length.
Qed.

(** The vector [onMouseMove] copies into the dragged tube: the point
    [intersectPlane] found, or the untouched (0,0,0) when it found none. *)
Lemma onMouseMove_dragged (ray : Ray.t) (st : State) (tube : Tube.t) :
  mounted st = true ->
  truthy (draggedTubeRef st) = true ->
  In tube (tubes st) ->
  Some (Tube.id tube) = draggedTubeRef st ->
  valid (heap st) tube ->
  get_vec (heap (step st (MouseMove ray))) (Tube.position tube)
  = match Ray.intersectPlane ray floor with
    | Some point => point
    | None => Vector3.mk 0 0 0
    end.
Proof.
  intros Hm Htr Hin Hd [Hp _]. unfold step. cbn [handle]. unfold onMouseMove.
  rewrite Hm, Htr. cbn [negb]. unfold render_effects.
  cbn [heap set_tubesRef setTubes set_heap].
  apply dragTubes_hit; [exact Hin | now apply strict_eq_true | exact Hp].
Qed.

Lemma intersect_ray_down :
  Ray.intersectPlane ray_down floor = Some (Vector3.mk 10 0 20).
Proof.
  unfold Ray.intersectPlane, Ray.distanceToPlane, ray_down, floor,
    Plane.distanceToPoint, Vector3.dot, Ray.at_, Vector3.addScaledVector.
  cbn [Ray.origin Ray.direction Plane.normal Plane.constant
       Vector3.x Vector3.y Vector3.z].
  destruct (Req_dec_T _ 0) as [H | _]; [exfalso; lra |].
  destruct (Rge_dec _ 0) as [_ | H].
  - f_equal. f_equal; field.
  - exfalso. apply H.
    replace (- (10 * 0 + 10 * 1 + 20 * 0 + 0) / (0 * 0 + 1 * -1 + 0 * 0))
      with 10 by field. lra.
Qed.

Lemma intersect_ray_level : Ray.intersectPlane ray_level floor = None.
Proof.
  unfold Ray.intersectPlane, Ray.distanceToPlane, ray_level, floor,
    Plane.distanceToPoint, Vector3.dot.
  cbn [Ray.origin Ray.direction Plane.normal Plane.constant
       Vector3.x Vector3.y Vector3.z].
  destruct (Req_dec_T _ 0) as [_ | H]; [| exfalso; apply H; lra].
  destruct (Req_dec_T _ 0) as [H | _]; [exfalso; lra | reflexivity].
Qed.

Lemma step_MouseMove_fields (ray : Ray.t) (st : State) :
  let st' := step st (MouseMove ray) in
  history st' = history st /\ historyIndex st' = historyIndex st /\
  draggedTubeRef st' = draggedTubeRef st /\ draggedTube st' = draggedTube st /\
  mounted st' = mounted st /\ selectedTube st' = selectedTube st /\
  List.length (vectors (heap st')) = List.length (vectors (heap st)) /\
  eulers (heap st') = eulers (heap st).
Proof.
  unfold step. cbn [handle]. unfold onMouseMove.
  destruct (mounted st) eqn:Hm; cbn [negb]; [| cbn; rewrite Hm; auto 10].
  destruct (truthy (draggedTubeRef st)); [| cbn; rewrite Hm; auto 10].
  cbn. rewrite Hm.
  match goal with
  | |- context [dragTubes ?d ?v ?ts ?h] =>
      destruct (dragTubes_lengths d v ts h) as [Hlv Hle]
  end.
  auto 10.
Qed.

Lemma positions_of_single (st : State) (tube : Tube.t) :
  tubes st = [tube] ->
  map seg_position (assembly st) = [get_vec (heap st) (Tube.position tube)].
Proof. intros H. unfold assembly. rewrite H. reflexivity. Qed.

(** ** A drag with a ray that misses the floor *)

Lemma grabbed_fields :
  tubes grabbed = [Tube.mk 50 30 3 100 0%nat 0%nat "A" true] /\
  draggedTubeRef grabbed = Some "A"%string /\
  mounted grabbed = true /\
  List.length (vectors (heap grabbed)) = 2%nat.
Proof. split; [| split; [| split]]; eval_state; reflexivity. Qed.

Lemma grabbed_invariant : WF grabbed /\ committed grabbed.
Proof.
  apply (run_invariant [MouseDown 0 false (Some "A"%string)] one_tube
                       WF_one_tube committed_one_tube).
Qed.

Lemma dragging_invariant : WF dragging /\ committed dragging.
Proof.
  destruct grabbed_invariant as [Hwf Hc].
  apply (run_invariant [MouseMove ray_down] grabbed Hwf Hc).
Qed.

Lemma dragging_fields :
  tubes dragging = [Tube.mk 50 30 3 100 0%nat 0%nat "A" true] /\
  draggedTubeRef dragging = Some "A"%string /\
  mounted dragging = true /\
  valid (heap dragging) (Tube.mk 50 30 3 100 0%nat 0%nat "A" true) /\
  get_vec (heap dragging) 0%nat = Vector3.mk 10 0 20.
Proof.
  destruct grabbed_fields as (Ht & Hd & Hm & Hlen).
  destruct grabbed_invariant as [Hwf Hc].
  assert (Hv : valid (heap grabbed) (Tube.mk 50 30 3 100 0%nat 0%nat "A" true)).
  { pose proof (wf_tubes grabbed Hwf) as Hv. rewrite Ht in Hv.
    now inversion Hv. }
  unfold dragging, run. cbn [fold_left].
  destruct (step_MouseMove_fields ray_down grabbed)
    as (_ & _ & Hd' & _ & Hm' & _ & Hlen' & He').
  destruct (step_MouseMove_tubes ray_down grabbed Hc) as (Ht' & _).
  rewrite Ht', Hd', Hm'.
  split; [exact Ht |]. split; [exact Hd |]. split; [exact Hm |]. split.
  - destruct Hv as [Hp Hr]. unfold valid. rewrite Hlen', He'. split; assumption.
  - pose proof (onMouseMove_dragged ray_down grabbed
                  (Tube.mk 50 30 3 100 0%nat 0%nat "A" true)) as Hmove.
    cbn [Tube.position Tube.id] in Hmove. rewrite Hmove.
    + now rewrite intersect_ray_down.
    + exact Hm.
    + rewrite Hd. reflexivity.
    + rewrite Ht. now left.
    + now rewrite Hd.
    + exact Hv.
Qed.

(** C5, the input on which the code departs from it.  Tube A is being
    dragged and sits at (10, 0, 20).  The next pointer move comes with a
    ray parallel to the floor, for which [intersectPlane] finds no point:
    the tube does not stay where it is, it is moved to the origin. *)
Theorem drag_with_level_ray_moves_tube_to_origin :
  Ray.intersectPlane ray_level floor = None /\
  map seg_position (assembly dragging) = [Vector3.mk 10 0 20] /\
  map seg_position (assembly (step dragging (MouseMove ray_level)))
  = [Vector3.mk 0 0 0].
Proof.
  destruct dragging_fields as (Ht & Hd & Hm & Hv & Hpos).
  destruct dragging_invariant as [_ Hc].
  split; [exact intersect_ray_level |]. split.
  - rewrite (positions_of_single dragging _ Ht). cbn [Tube.position].
    now rewrite Hpos.
  - destruct (step_MouseMove_tubes ray_level dragging Hc) as (Ht' & _).
    rewrite Ht in Ht'.
    rewrite (positions_of_single _ _ Ht'). f_equal.
    rewrite (onMouseMove_dragged ray_level dragging
               (Tube.mk 50 30 3 100 0%nat 0%nat "A" true)).
    + now rewrite intersect_ray_level.
    + exact Hm.
    + rewrite Hd. reflexivity.
    + rewrite Ht. now left.
    + now rewrite Hd.
    + exact Hv.
Qed.

(** ** The history over a drag gesture *)

Lemma step_MouseDown_fields (hit : string) (st : State) :
  mounted st = true ->
  let st' := step st (MouseDown 0 false (Some hit)) in
  history st' = history st /\ historyIndex st' = historyIndex st /\
  draggedTubeRef st' = Some hit /\ mounted st' = true.
Proof. intros Hm. unfold step. cbn [handle]. unfold onMouseDown. rewrite Hm. cbn. auto. Qed.

(** Pointer moves push nothing on the history and keep the drag session. *)
Lemma run_moves_fields (rays : list Ray.t) :
  forall st,
    let st' := run (map MouseMove rays) st in
    history st' = history st /\ historyIndex st' = historyIndex st /\
    draggedTubeRef st' = draggedTubeRef st /\ mounted st' = mounted st.
Proof.
  induction rays as [| ray rays IH]; intros st; cbn [map run fold_left]; [auto |].
  destruct (step_MouseMove_fields ray st) as (H1 & H2 & H3 & _ & H4 & _).
  destruct (IH (step st (MouseMove ray))) as (I1 & I2 & I3 & I4).
  unfold run in *. rewrite I1, I2, I3, I4. auto.
Qed.

(** The release of a drag: the history is replaced by the one snapshot of
    the tubes and the drag session is closed. *)
Lemma step_MouseUp_fields (st : State) :
  let st' := step st MouseUp in
  draggedTubeRef st' = None /\ draggedTube st' = None /\
  (truthy (draggedTubeRef st) = true ->
   history st' = [fst (map_clone (tubesRef st) (heap st))] /\
   historyIndex st' = 0%Z) /\
  (truthy (draggedTubeRef st) = false ->
   history st' = history st /\ historyIndex st' = historyIndex st).
Proof.
  unfold step. cbn [handle]. unfold onMouseUp.
  cbn [draggedTubeRef set_isDragging tubesRef].
  destruct (truthy (draggedTubeRef st)).
  - rewrite addToHistory_eq. cbn. repeat split; intros; try discriminate; reflexivity.
  - cbn. repeat split; intros; try discriminate; reflexivity.
Qed.

Lemma run_app (evs1 evs2 : list Event) (st : State) :
  run (evs1 ++ evs2) st = run evs2 (run evs1 st).
Proof. unfold run. apply fold_left_app. Qed.

(** Whatever the history was, after a whole gesture it has one entry. *)
Lemma drag_gesture_history (hit : string) (rays : list Ray.t) (st : State) :
  mounted st = true -> hit <> ""%string ->
  let pressed_and_moved :=
    run (MouseDown 0 false (Some hit) :: map MouseMove rays) st in
  let released :=
    run (MouseDown 0 false (Some hit) :: map MouseMove rays ++ [MouseUp]) st in
  history pressed_and_moved = history st /\
  historyIndex pressed_and_moved = historyIndex st /\
  List.length (history released) = 1%nat /\
  historyIndex released = 0%Z /\
  draggedTubeRef released = None /\ draggedTube released = None.
Proof.
  intros Hm Hhit. cbv zeta.
  change (MouseDown 0 false (Some hit) :: map MouseMove rays ++ [MouseUp])
    with ((MouseDown 0 false (Some hit) :: map MouseMove rays) ++ [MouseUp]).
  rewrite run_app.
  change (run (MouseDown 0 false (Some hit) :: map MouseMove rays) st)
    with (run (map MouseMove rays) (step st (MouseDown 0 false (Some hit)))).
  destruct (step_MouseDown_fields hit st Hm) as (D1 & D2 & D3 & D4).
  destruct (run_moves_fields rays (step st (MouseDown 0 false (Some hit))))
    as (M1 & M2 & M3 & M4).
  set (moved := run (map MouseMove rays) (step st (MouseDown 0 false (Some hit)))) in *.
  change (run [MouseUp] moved) with (step moved MouseUp).
  destruct (step_MouseUp_fields moved) as (U1 & U2 & U3 & _).
  assert (Htr : truthy (draggedTubeRef moved) = true).
  { rewrite M3, D3. cbn. destruct (String.eqb_spec hit ""); [contradiction | reflexivity]. }
  destruct (U3 Htr) as [U4 U5].
  rewrite M1, M2, D1, D2, U4, U5. repeat split; auto.
Qed.

Lemma two_tubes_history :
  List.length (history two_tubes) = 2%nat /\ historyIndex two_tubes = 1%Z /\
  mounted two_tubes = true.
Proof. split; [| split]; eval_state; reflexivity. Qed.

(** C8, the input on which the code departs from it.  [two_tubes] has two
    history entries.  Tube B is pressed, moved twice and released: the
    moves push nothing and the drag session is closed at the release, but
    the history is left with a single entry instead of three, so the
    release appended nothing and dropped what there was to undo. *)
Theorem drag_release_leaves_one_history_entry :
  List.length (history two_tubes) = 2%nat /\
  historyIndex two_tubes = 1%Z /\
  List.length (history (run drag_B two_tubes)) = 1%nat /\
  historyIndex (run drag_B two_tubes) = 0%Z /\
  canUndo (run drag_B two_tubes) = false /\
  draggedTubeRef (run drag_B two_tubes) = None /\
  draggedTube (run drag_B two_tubes) = None.
Proof.
  destruct two_tubes_history as (Hlen & Hidx & Hm).
  destruct (drag_gesture_history "B" [ray_down; ray_level] two_tubes Hm)
    as (_ & _ & H1 & H2 & H3 & H4); [discriminate |].
  change (run (MouseDown 0 false (Some "B"%string)
               :: map MouseMove [ray_down; ray_level] ++ [MouseUp]) two_tubes)
    with (run drag_B two_tubes) in *.
  unfold canUndo. rewrite H2. repeat split; assumption.
Qed.

(** ** A restored tube and the entry it came from *)

Lemma restored_fields :
  tubes restored = [Tube.mk 50 30 3 100 1%nat 1%nat "A" false] /\
  history restored = [[Tube.mk 50 30 3 100 1%nat 1%nat "A" false]; []] /\
  historyIndex restored = 0%Z /\
  heap restored = mkHeap [Vector3.mk 0 0 0; Vector3.mk 0 0 0]
                         [Euler.mk 0 0 0; Euler.mk 0 0 0].
Proof. split; [| split; [| split]]; eval_state; reflexivity. Qed.

Lemma restored_invariant : WF restored /\ committed restored.
Proof.
  apply (run_invariant [ClickAddTube "A"; ClickRemoveTube "A"; ClickUndo] init
                       WF_init committed_init).
Qed.

Lemma restored_grabbed_fields :
  tubes restored_grabbed = [Tube.mk 50 30 3 100 1%nat 1%nat "A" true] /\
  history restored_grabbed = [[Tube.mk 50 30 3 100 1%nat 1%nat "A" false]; []] /\
  draggedTubeRef restored_grabbed = Some "A"%string /\
  mounted restored_grabbed = true /\
  heap restored_grabbed = mkHeap [Vector3.mk 0 0 0; Vector3.mk 0 0 0]
                                 [Euler.mk 0 0 0; Euler.mk 0 0 0].
Proof. split; [| split; [| split; [| split]]]; eval_state; reflexivity. Qed.

Lemma restored_grabbed_invariant : WF restored_grabbed /\ committed restored_grabbed.
Proof.
  destruct restored_invariant as [Hwf Hc].
  apply (run_invariant [MouseDown 0 false (Some "A"%string)] restored Hwf Hc).
Qed.

(** C1, the input on which the code departs from it.  After Add Tube,
    remove and Undo the live tube holds the very position and rotation
    objects of the history entry it was restored from.  The entry reads A at
    the origin; one pointer move of a drag of the live tube later, with no
    history operation in between, the same entry reads A at (10, 0, 20). *)
Theorem drag_after_undo_rewrites_history_entry :
  (exists live entry,
      tubes restored = [live] /\
      index (history restored) 0 = Some [entry] /\
      Tube.position live = Tube.position entry /\
      Tube.rotation live = Tube.rotation entry) /\
  stored_history restored
  = [[mkSegment "A" 50 30 3 100 (Vector3.mk 0 0 0) (Euler.mk 0 0 0) false]; []] /\
  stored_history (step restored_grabbed (MouseMove ray_down))
  = [[mkSegment "A" 50 30 3 100 (Vector3.mk 10 0 20) (Euler.mk 0 0 0) false]; []].
Proof.
  destruct restored_fields as (Ht & Hh & Hi & Hheap).
  destruct restored_grabbed_fields as (Htg & Hhg & Hdg & Hmg & Hheapg).
  split; [| split].
  - exists (Tube.mk 50 30 3 100 1%nat 1%nat "A" false),
           (Tube.mk 50 30 3 100 1%nat 1%nat "A" false).
    rewrite Ht, Hh. repeat split.
  - unfold stored_history. rewrite Hh, Hheap. reflexivity.
  - destruct (step_MouseMove_fields ray_down restored_grabbed)
      as (Hh' & _ & _ & _ & _ & _ & _ & He').
    pose proof (onMouseMove_dragged ray_down restored_grabbed
                  (Tube.mk 50 30 3 100 1%nat 1%nat "A" true)) as Hmove.
    cbn [Tube.position Tube.id] in Hmove.
    rewrite intersect_ray_down in Hmove.
    unfold stored_history. rewrite Hh', Hhg.
    cbn [map]. unfold segment. cbn [Tube.id Tube.width Tube.height Tube.thickness
                                     Tube.length Tube.position Tube.rotation
                                     Tube.isSelected].
    unfold get_euler. rewrite He', Hheapg. cbn [eulers nth].
    rewrite Hmove; [reflexivity | exact Hmg | now rewrite Hdg | rewrite Htg; now left
                    | now rewrite Hdg |].
    unfold valid. rewrite Hheapg. cbn. lia.
Qed.

(** ** An instance of the round trip *)

Lemma undo_all_then_redo_restores_witness :
  forallb is_edit sample_edits = true /\
  canUndo (fst (undo_until_exhausted
                  (List.length (history (run sample_edits init)))
                  (run sample_edits init))) = false /\
  assembly (run (repeat ClickRedo
                   (snd (undo_until_exhausted
                           (List.length (history (run sample_edits init)))
                           (run sample_edits init))))
                (fst (undo_until_exhausted
                        (List.length (history (run sample_edits init)))
                        (run sample_edits init))))
  = assembly (run sample_edits init).
Proof.
  split; [reflexivity |].
  apply (undo_all_then_redo_restores sample_edits). reflexivity.
Defined.

(** ** An unknown id against a non-empty assembly *)

Lemma removeTube_unknown_id_is_noop_witness :
  (forall tube, In tube (tubes one_tube) -> Tube.id tube <> "ghost"%string) /\
  removeTube "ghost" one_tube = one_tube /\
  (committed one_tube -> step one_tube (ClickRemoveTube "ghost") = one_tube).
Proof.
  assert (Habsent : forall tube, In tube (tubes one_tube) ->
                                 Tube.id tube <> "ghost"%string).
  { destruct one_tube_fields as (Ht & _). rewrite Ht.
    intros tube [<- | []]. cbn. discriminate. }
  split; [exact Habsent |].
  apply (removeTube_unknown_id_is_noop "ghost" one_tube Habsent).
Defined.

(** ** Invariants of every reachable state *)

Lemma render_effects_fields (st : State) :
  heap (render_effects st) = heap st /\
  history (render_effects st) = history st /\
  historyIndex (render_effects st) = historyIndex st /\
  selectedTube (render_effects st) = selectedTube st /\
  mounted (render_effects st) = mounted st /\
  draggedTubeRef (render_effects st) = draggedTubeRef st.
Proof. repeat split. Qed.

Lemma mounted_handle (ev : Event) (st : State) :
  mounted (handle ev st) = mounted st.
Proof.
  destruct ev; cbn [handle]; try reflexivity.
  - destruct (mounted st) eqn:Hm.
    + rewrite addTube_eq by exact Hm. rewrite addToHistory_eq. cbn. exact Hm.
    + unfold addTube. rewrite Hm. cbn [negb]. exact Hm.
  - unfold removeTube. destruct (mounted st) eqn:Hm; cbn [negb]; [| exact Hm].
    destruct (find _ _); [| exact Hm].
    rewrite addToHistory_eq. destruct (strict_eq _ _); cbn; exact Hm.
  - unfold clearAll. destruct (mounted st) eqn:Hm; cbn [negb]; [| exact Hm].
    cbn. exact Hm.
  - unfold undo. destruct (_ <? _)%Z; [| reflexivity].
    unfold restoreState. destruct (mounted st) eqn:Hm; cbn [negb].
    + destruct (index _ _); cbn; [exact Hm | exact Hm].
    + cbn. exact Hm.
  - unfold redo. destruct (_ <? _)%Z; [| reflexivity].
    unfold restoreState. destruct (mounted st) eqn:Hm; cbn [negb].
    + destruct (index _ _); cbn; [exact Hm | exact Hm].
    + cbn. exact Hm.
  - unfold onMouseDown. destruct (mounted st) eqn:Hm; cbn [negb]; [| exact Hm].
    destruct ((_ =? 0)%Z && negb _)%bool, hit, ((_ =? 1)%Z || _)%bool; cbn; exact Hm.
  - unfold onMouseMove. destruct (mounted st) eqn:Hm; cbn [negb]; [| exact Hm].
    destruct (truthy _); cbn; exact Hm.
  - unfold onMouseUp. cbn [draggedTubeRef set_isDragging].
    destruct (truthy _); [rewrite addToHistory_eq |]; reflexivity.
Qed.

Lemma mounted_run (evs : list Event) :
  forall st, mounted (run evs st) = mounted st.
Proof.
  unfold run. induction evs as [| ev evs IH]; intros st; cbn [fold_left]; [reflexivity |].
  rewrite IH. unfold step. cbn [render_effects mounted set_tubesRef setTubes].
  apply mounted_handle.
Qed.

(** Everything the claims' invariants give for a state reached from [init]. *)
Lemma reachable (evs : list Event) :
  WF (run evs init) /\ committed (run evs init) /\ mounted (run evs init) = true.
Proof.
  destruct (run_invariant evs init WF_init committed_init) as [Hwf Hc].
  split; [exact Hwf |]. split; [exact Hc |]. now rewrite mounted_run.
Qed.

Lemma cursor_ok_recorded (hc : list (list Tube.t)) (ic : Z) (ts : list Tube.t)
      (st : State) :
  cursor_ok (addToHistory hc ic ts st).
Proof.
  rewrite addToHistory_eq. right. cbn. rewrite length_app. cbn. lia.
Qed.

Lemma cursor_ok_handle (ev : Event) (st : State) :
  cursor_ok st -> cursor_ok (handle ev st).
Proof.
  intros Hok. destruct ev; cbn [handle]; try exact Hok.
  - destruct (mounted st) eqn:Hm.
    + rewrite addTube_eq by exact Hm. apply cursor_ok_recorded.
    + unfold addTube. rewrite Hm. cbn [negb]. exact Hok.
  - unfold removeTube. destruct (mounted st); cbn [negb]; [| exact Hok].
    destruct (find _ _); [| exact Hok]. apply cursor_ok_recorded.
  - unfold clearAll. destruct (mounted st); cbn [negb]; [| exact Hok].
    left. split; reflexivity.
  - unfold undo. destruct (Z.ltb_spec 0 (historyIndex st)); [| exact Hok].
    destruct (restoreState _ st) as [st1 |] eqn:Hr; [| exact Hok].
    assert (Hh : history st1 = history st).
    { unfold restoreState in Hr. destruct (mounted st); cbn [negb] in Hr.
      - destruct (index _ _); [| discriminate]. now injection Hr as <-.
      - now injection Hr as <-. }
    unfold cursor_ok in *. cbn. rewrite Hh.
    destruct Hok as [[_ Hi] | Hi]; [lia | right; lia].
  - unfold redo.
    destruct (Z.ltb_spec (historyIndex st) (Z.of_nat (List.length (history st)) - 1));
      [| exact Hok].
    destruct (restoreState _ st) as [st1 |] eqn:Hr; [| exact Hok].
    assert (Hh : history st1 = history st).
    { unfold restoreState in Hr. destruct (mounted st); cbn [negb] in Hr.
      - destruct (index _ _); [| discriminate]. now injection Hr as <-.
      - now injection Hr as <-. }
    unfold cursor_ok in *. cbn. rewrite Hh.
    destruct Hok as [[Hnil Hi] | Hi]; [rewrite Hnil in *; cbn in *; lia | right; lia].
  - unfold onMouseDown. destruct (mounted st); cbn [negb]; [| exact Hok].
    destruct ((_ =? 0)%Z && negb _)%bool, hit, ((_ =? 1)%Z || _)%bool; exact Hok.
  - unfold onMouseMove. destruct (mounted st); cbn [negb]; [| exact Hok].
    destruct (truthy _); exact Hok.
  - unfold onMouseUp. cbn [draggedTubeRef set_isDragging tubesRef].
    destruct (truthy _).
    + pose proof (cursor_ok_recorded [] (-1)%Z (tubesRef st) (set_isDragging st false)) as H.
      exact H.
    + exact Hok.
Qed.

Lemma cursor_ok_run (evs : list Event) :
  forall st, cursor_ok st -> cursor_ok (run evs st).
Proof.
  unfold run. induction evs as [| ev evs IH]; intros st Hok; cbn [fold_left]; [exact Hok |].
  apply IH. apply (cursor_ok_handle ev st Hok).
Qed.

(** The cursor of a reachable state, and the entries next to it. *)
Lemma reachable_cursor (evs : list Event) :
  let st := run evs init in
  cursor_ok st /\
  (canUndo st = true ->
   exists entry, index (history st) (historyIndex st - 1) = Some entry) /\
  (canRedo st = true ->
   exists entry, index (history st) (historyIndex st + 1) = Some entry).
Proof.
  intros st.
  assert (Hok : cursor_ok st) by (apply cursor_ok_run; left; split; reflexivity).
  split; [exact Hok |]. unfold canUndo, canRedo. split; intros Hb.
  - apply Z.ltb_lt in Hb. apply index_in_range.
    destruct Hok as [[_ Hi] | Hi]; lia.
  - apply Z.ltb_lt in Hb. apply index_in_range.
    destruct Hok as [[Hnil Hi] | Hi]; [rewrite Hnil in Hb; cbn in Hb |]; lia.
Qed.

(** X1. In every state the application reaches, the history cursor is -1
    with an empty history or a valid index into it; so whenever Undo or Redo
    is enabled, the entry it is about to restore exists and [restoreState]
    is never handed [undefined]. *)
Theorem history_cursor_always_valid (evs : list Event) :
  let st := run evs init in
  cursor_ok st /\
  (canUndo st = true ->
   exists entry, index (history st) (historyIndex st - 1) = Some entry) /\
  (canRedo st = true ->
   exists entry, index (history st) (historyIndex st + 1) = Some entry).
Proof. exact (reachable_cursor evs). Qed.

(** ** Stores that keep what they hold *)

Lemma preserves_refl (h : Heap) : preserves h h.
Proof. repeat split; auto. Qed.

Lemma preserves_trans (h1 h2 h3 : Heap) :
  preserves h1 h2 -> preserves h2 h3 -> preserves h1 h3.
Proof.
  intros (Hv1 & He1 & Hlv1 & Hle1) (Hv2 & He2 & Hlv2 & Hle2).
  repeat split; try lia.
  - intros p Hp. rewrite Hv2 by lia. now apply Hv1.
  - intros r Hr. rewrite He2 by lia. now apply He1.
Qed.

Lemma extends_preserves (h h' : Heap) : extends h h' -> preserves h h'.
Proof.
  intros Hext. pose proof Hext as [[vs Hv] [es He]]. repeat split.
  - intros p Hp. now apply extends_get_vec.
  - intros r Hr. now apply extends_get_euler.
  - rewrite Hv, length_app. lia.
  - rewrite He, length_app. lia.
Qed.

Lemma preserves_segment (h h' : Heap) (tube : Tube.t) :
  preserves h h' -> valid h tube -> segment h' tube = segment h tube.
Proof.
  intros (Hv & He & _) [Hp Hr]. unfold segment. now rewrite Hv, He.
Qed.

Lemma preserves_segments (h h' : Heap) (ts : list Tube.t) :
  preserves h h' -> Forall (valid h) ts ->
  map (segment h') ts = map (segment h) ts.
Proof.
  intros Hpre Hv. apply map_ext_in. intros tube Hin.
  rewrite Forall_forall in Hv. apply preserves_segment; auto.
Qed.

(** [addTube] writes the pose into the two objects it has just created. *)
Lemma appended_preserves (newId : string) (st : State) :
  preserves (heap st) (heap (appended newId st)).
Proof.
  unfold appended. cbn [new_Vector3 new_Euler].
  destruct (last_elem (tubes st)) as [lastTube |];
    unfold preserves, placeAfter, get_vec, get_euler, set_vec, set_euler; cbn;
    rewrite ?upd_length, !length_app; cbn; repeat split; try lia.
  - intros p Hp. rewrite nth_upd_other by lia. now apply app_nth1.
  - intros r Hr. rewrite nth_upd_other by lia. now apply app_nth1.
  - intros p Hp. now apply app_nth1.
  - intros r Hr. now apply app_nth1.
Qed.

Lemma committed_setSelected (st : State) :
  committed st ->
  map (fun tube => Tube.setSelected tube
                     (strict_eq (Some (Tube.id tube)) (selectedTube st)))
      (tubes st) = tubes st.
Proof.
  intros [_ Hsel]. rewrite <- (map_id (tubes st)) at 2. apply map_ext_in.
  intros tube Hin. rewrite Forall_forall in Hsel.
  rewrite <- (Hsel tube Hin). destruct tube; reflexivity.
Qed.

(** The assembly after Add Tube: what there was, then the new segment. *)
Lemma step_addTube_assembly (newId : string) (st : State) :
  WF st -> committed st -> mounted st = true ->
  assembly (step st (ClickAddTube newId)) =
  assembly st ++
  [mkSegment newId (width st)
             (if String.eqb (tubeType st) "square" then width st else height st)
             (thickness st) (length st)
             (fst (placeNext st)) (snd (placeNext st))
             (strict_eq (Some newId) (selectedTube st))].
Proof.
  intros Hwf Hc Hm. destruct (appended_pose newId st Hwf) as [Hpos Hrot].
  pose proof (appended_preserves newId st) as Hpre.
  pose proof (appended_valid newId st Hwf) as Hval.
  unfold step. cbn [handle]. rewrite addTube_eq by exact Hm.
  rewrite addToHistory_eq. unfold assembly, render_effects.
  cbn [tubes heap selectedTube set_tubesRef setTubes setHistoryIndex setHistory
       set_heap].
  set (h3 := heap (appended newId st)) in *.
  set (h' := snd (map_clone _ h3)).
  assert (Hpre' : preserves h3 h') by apply extends_preserves, map_clone_extends.
  rewrite appended_tubes in *. rewrite map_app, map_app.
  change (selectedTube (appended newId st)) with (selectedTube st).
  rewrite (committed_setSelected st Hc).
  apply Forall_app in Hval. destruct Hval as [Hold Hnew].
  f_equal.
  - rewrite (preserves_segments h3 h' _ Hpre' Hold).
    apply preserves_segments; [exact Hpre | apply (wf_tubes st Hwf)].
  - cbn [map]. f_equal. inversion Hnew as [| ? ? Hv _]; subst.
    destruct Hpre' as (Hv' & He' & _). destruct Hv as [Hp Hr].
    unfold segment. cbn in *. rewrite Hv', He' by assumption.
    rewrite Hpos, Hrot. reflexivity.
Qed.

(** ** Add Tube *)

(** X2. Add Tube leaves every segment already in the assembly exactly as it
    reads, and puts after them one segment with the drawn id, the
    dimensions of the panel and the pose [placeNext] computes. *)
Theorem addTube_appends_and_keeps_the_rest (evs : list Event) (newId : string) :
  let st := run evs init in
  exists s,
    assembly (step st (ClickAddTube newId)) = assembly st ++ [s] /\
    seg_id s = newId /\
    seg_width s = width st /\ seg_thickness s = thickness st /\
    seg_length s = length st /\
    (seg_position s, seg_rotation s) = placeNext st.
Proof.
  intros st. destruct (reachable evs) as (Hwf & Hc & Hm). fold st in Hwf, Hc, Hm.
  eexists. split; [apply (step_addTube_assembly newId st Hwf Hc Hm) |].
  cbn. destruct (placeNext st). repeat split.
Qed.

(** X3. With an empty assembly, whatever the angle and the snap setting,
    the tube Add Tube creates is at the origin with the identity
    rotation. *)
Theorem first_tube_at_origin (evs : list Event) (newId : string) :
  let st := run evs init in
  assembly st = [] ->
  exists s,
    assembly (step st (ClickAddTube newId)) = [s] /\
    seg_position s = Vector3.mk 0 0 0 /\
    seg_rotation s = Euler.mk 0 0 0.
Proof.
  intros st Hempty. destruct (reachable evs) as (Hwf & Hc & Hm).
  fold st in Hwf, Hc, Hm.
  assert (Ht : tubes st = []).
  { unfold assembly in Hempty. destruct (tubes st); [reflexivity | discriminate]. }
  eexists. split.
  - rewrite (step_addTube_assembly newId st Hwf Hc Hm), Hempty. reflexivity.
  - unfold placeNext. rewrite Ht. cbn. split; reflexivity.
Qed.

Lemma first_tube_at_origin_witness :
  assembly (run [ChangeAngle 37; ChangeSnap false; ClickAddTube "A"%string;
                 ClickClearAll] init) = [] /\
  exists s,
    assembly (step (run [ChangeAngle 37; ChangeSnap false;
                         ClickAddTube "A"%string; ClickClearAll] init)
                   (ClickAddTube "B")) = [s] /\
    seg_position s = Vector3.mk 0 0 0 /\
    seg_rotation s = Euler.mk 0 0 0.
Proof.
  assert (H : assembly (run [ChangeAngle 37; ChangeSnap false;
                             ClickAddTube "A"%string; ClickClearAll] init) = [])
    by (eval_state; reflexivity).
  split; [exact H |].
  apply (first_tube_at_origin [ChangeAngle 37; ChangeSnap false;
                               ClickAddTube "A"%string; ClickClearAll] "B" H).
Defined.

Lemma last_elem_map {A B : Type} (f : A -> B) (l : list A) :
  last_elem (map f l) = option_map f (last_elem l).
Proof.
  unfold last_elem, index. rewrite length_map.
  destruct (_ <? 0)%Z; [reflexivity |]. apply nth_error_map.
Qed.

(** Turning a vector along z is linear in its length. *)
Lemma applyEuler_opposite (l : R) (e : Euler.t) :
  Vector3.add (applyEuler (Vector3.mk 0 0 l) e)
              (applyEuler (Vector3.mk 0 0 (- l)) e) = Vector3.mk 0 0 0.
Proof.
  unfold applyEuler, applyQuaternion, Vector3.add. cbn.
  f_equal; ring.
Qed.

Lemma add_assoc_cancel (j o o' : Vector3.t) :
  Vector3.add o o' = Vector3.mk 0 0 0 ->
  Vector3.add (Vector3.add j o) o' = j.
Proof.
  destruct j as [jx jy jz], o as [ox oy oz], o' as [px py pz].
  unfold Vector3.add. cbn. intros [= Hx Hy Hz]. f_equal; lra.
Qed.

Lemma add_comm (u v : Vector3.t) : Vector3.add u v = Vector3.add v u.
Proof. unfold Vector3.add. f_equal; lra. Qed.

(** X4. The start face of the tube Add Tube creates is the end face of the
    tube that was last in the chain, as that tube reads at that moment
    (over the reals the two points are equal). *)
Theorem new_tube_starts_where_last_ends (evs : list Event) (newId : string)
        (prev : Segment) :
  let st := run evs init in
  last_elem (assembly st) = Some prev ->
  exists s,
    last_elem (assembly (step st (ClickAddTube newId))) = Some s /\
    start_face s = end_face prev.
Proof.
  intros st Hprev. destruct (reachable evs) as (Hwf & Hc & Hm).
  fold st in Hwf, Hc, Hm.
  rewrite (step_addTube_assembly newId st Hwf Hc Hm).
  eexists. split; [apply last_elem_snoc |].
  unfold assembly in Hprev. rewrite last_elem_map in Hprev.
  destruct (last_elem (tubes st)) as [lastTube |] eqn:Hlast; [| discriminate].
  injection Hprev as <-.
  unfold start_face, end_face, placeNext. rewrite Hlast.
  cbn [seg_position seg_rotation seg_length fst snd segment].
  rewrite add_assoc_cancel by apply applyEuler_opposite.
  apply add_comm.
Qed.

Lemma new_tube_starts_where_last_ends_witness :
  last_elem (assembly one_tube)
  = Some (mkSegment "A" 50 30 3 100 (Vector3.mk 0 0 0) (Euler.mk 0 0 0) false) /\
  exists s,
    last_elem (assembly (step one_tube (ClickAddTube "B"))) = Some s /\
    start_face s
    = end_face (mkSegment "A" 50 30 3 100 (Vector3.mk 0 0 0) (Euler.mk 0 0 0) false).
Proof.
  assert (H : last_elem (assembly one_tube)
              = Some (mkSegment "A" 50 30 3 100 (Vector3.mk 0 0 0)
                                (Euler.mk 0 0 0) false))
    by (eval_state; reflexivity).
  split; [exact H |].
  apply (new_tube_starts_where_last_ends [ClickAddTube "A"%string] "B" _ H).
Defined.

(** ** The remove button and Clear All *)

Lemma filter_all {A : Type} (f : A -> bool) (l : list A) :
  (forall a, In a l -> f a = true) -> filter f l = l.
Proof.
  induction l as [| a l IH]; cbn; intros H; [reflexivity |].
  rewrite (H a) by now left. f_equal. apply IH. intros b Hb. apply H. now right.
Qed.

Lemma filter_map_comm {A B : Type} (f : A -> B) (p : B -> bool) (l : list A) :
  filter p (map f l) = map f (filter (fun a => p (f a)) l).
Proof.
  induction l as [| a l IH]; cbn; [reflexivity |].
  destruct (p (f a)); cbn; now rewrite IH.
Qed.

(** The assembly after the remove button: the segments with another id. *)
Lemma step_removeTube_assembly (tubeId : string) (st : State) :
  WF st -> committed st -> mounted st = true ->
  assembly (step st (ClickRemoveTube tubeId)) =
  filter (fun s => negb (String.eqb (seg_id s) tubeId)) (assembly st).
Proof.
  intros Hwf Hc Hm. unfold assembly at 2. rewrite filter_map_comm.
  cbn [seg_id segment].
  unfold step. cbn [handle]. unfold removeTube. rewrite Hm. cbn [negb].
  destruct (find _ (tubes st)) as [found |] eqn:Hfind.
  - set (filtered := filter _ (tubes st)).
    set (st2 := if strict_eq _ _ then _ else _).
    assert (Ht2 : tubes st2 = filtered)
      by (subst st2; destruct (strict_eq _ _); reflexivity).
    assert (Hh2 : heap st2 = heap st)
      by (subst st2; destruct (strict_eq _ _); reflexivity).
    assert (Hs2 : selectedTube st2
                  = if strict_eq (selectedTube st) (Some tubeId)
                    then None else selectedTube st)
      by (subst st2; destruct (strict_eq _ _); reflexivity).
    rewrite addToHistory_eq. unfold assembly, render_effects.
    cbn [tubes heap selectedTube set_tubesRef setTubes setHistoryIndex setHistory
         set_heap].
    rewrite Ht2, Hh2, Hs2.
    assert (Hsame : map (fun tube => Tube.setSelected tube
                           (strict_eq (Some (Tube.id tube))
                              (if strict_eq (selectedTube st) (Some tubeId)
                               then None else selectedTube st)))
                        filtered = filtered).
    { rewrite <- (map_id filtered) at 2. apply map_ext_in.
      intros tube Hin. subst filtered. apply filter_In in Hin.
      destruct Hin as [Hin Hne]. destruct Hc as [_ Hsel].
      rewrite Forall_forall in Hsel. specialize (Hsel tube Hin).
      destruct (strict_eq (selectedTube st) (Some tubeId)) eqn:Hcase.
      - apply strict_eq_true in Hcase. rewrite Hcase in Hsel. cbn in Hsel.
        apply negb_true_iff in Hne. rewrite Hne in Hsel.
        cbn. rewrite <- Hsel. destruct tube; reflexivity.
      - rewrite <- Hsel. destruct tube; reflexivity. }
    rewrite Hsame.
    apply preserves_segments.
    + apply extends_preserves, map_clone_extends.
    + subst filtered. apply Forall_filter_keep, (wf_tubes st Hwf).
  - rewrite (render_effects_committed st Hc). unfold assembly. f_equal.
    symmetry. apply filter_all. intros tube Hin.
    pose proof (find_none _ _ Hfind tube Hin) as Hf. cbn in Hf. now rewrite Hf.
Qed.

(** X5. The remove button takes out of the assembly every segment that
    carries the id and nothing else: the other segments stay, in order, with
    every field as it was (no tube is moved to close the gap); with an id
    nobody carries the assembly is unchanged. *)
Theorem removeTube_filters_the_assembly (evs : list Event) (tubeId : string) :
  let st := run evs init in
  assembly (step st (ClickRemoveTube tubeId)) =
  filter (fun s => negb (String.eqb (seg_id s) tubeId)) (assembly st).
Proof.
  intros st. destruct (reachable evs) as (Hwf & Hc & Hm).
  now apply step_removeTube_assembly.
Qed.

(** X6. Clear All empties the assembly, the selection and the history
    alike: afterwards Undo and Redo are disabled and clicking them changes
    nothing, so the cleared tubes cannot be brought back. *)
Theorem clearAll_resets_history (evs : list Event) :
  let st := step (run evs init) ClickClearAll in
  assembly st = [] /\ history st = [] /\ historyIndex st = (-1)%Z /\
  selectedTube st = None /\
  canUndo st = false /\ canRedo st = false /\
  step st ClickUndo = st /\ step st ClickRedo = st.
Proof.
  intros st. destruct (reachable evs) as (_ & _ & Hm).
  assert (Hc : committed st) by apply committed_render_effects.
  assert (Hfields : tubes st = [] /\ history st = [] /\
                    historyIndex st = (-1)%Z /\ selectedTube st = None).
  { subst st. unfold step. cbn [handle]. unfold clearAll. rewrite Hm.
    cbn. auto. }
  destruct Hfields as (Ht & Hh & Hi & Hs).
  unfold assembly, canUndo, canRedo. rewrite Ht, Hh, Hi.
  repeat split; try reflexivity; try assumption.
  - unfold step. cbn [handle]. unfold undo. rewrite Hi. cbn.
    now apply render_effects_committed.
  - unfold step. cbn [handle]. unfold redo. rewrite Hi, Hh. cbn.
    now apply render_effects_committed.
Qed.

(** ** Recording after an undo *)

Lemma slice0_firstn {A : Type} (l : list A) (e : Z) :
  (0 <= e <= Z.of_nat (List.length l))%Z ->
  slice0 l e = firstn (Z.to_nat e) l.
Proof.
  intros He. unfold slice0. destruct (Z.ltb_spec e 0); [lia |].
  now rewrite Z.min_l by lia.
Qed.

Lemma handle_records (ev : Event) (st : State) :
  mounted st = true -> records ev st = true ->
  exists ts st0, handle ev st = addToHistory (history st) (historyIndex st) ts st0.
Proof.
  intros Hm Hrec. destruct ev; try discriminate; cbn [handle].
  - rewrite addTube_eq by exact Hm. eauto.
  - unfold removeTube. rewrite Hm. cbn [negb]. cbn in Hrec.
    destruct (find _ (tubes st)) eqn:Hfind; [eauto |].
    apply existsb_exists in Hrec. destruct Hrec as (tube & Hin & Heq).
    pose proof (find_none _ _ Hfind tube Hin) as Hf. cbn in Hf. congruence.
Qed.

(** X7. A click that records (Add Tube, or the remove button of an existing
    tube) keeps the entries up to the cursor, drops the entries after it
    and appends one: the cursor moves one up onto the new, last entry and
    Redo is disabled. *)
Theorem recording_drops_the_redo_entries (evs : list Event) (ev : Event) :
  let st := run evs init in
  records ev st = true ->
  exists entry,
    history (step st ev)
    = firstn (Z.to_nat (historyIndex st + 1)) (history st) ++ [entry] /\
    historyIndex (step st ev) = (historyIndex st + 1)%Z /\
    canRedo (step st ev) = false.
Proof.
  intros st Hrec. destruct (reachable evs) as (_ & _ & Hm). fold st in Hm.
  destruct (reachable_cursor evs) as (Hok & _). fold st in Hok.
  destruct (handle_records ev st Hm Hrec) as (ts & st0 & Heq).
  unfold step, canRedo. rewrite Heq, addToHistory_eq.
  cbn [render_effects history historyIndex set_tubesRef setTubes setHistoryIndex
       setHistory set_heap].
  rewrite slice0_firstn
    by (destruct Hok as [[Hnil Hi] | Hi]; [rewrite Hnil, Hi; cbn |]; lia).
  eexists. split; [reflexivity |]. rewrite length_app, length_firstn. cbn [List.length].
  split.
  - destruct Hok as [[Hnil Hi] | Hi]; [rewrite Hnil, Hi; cbn |]; lia.
  - apply Z.ltb_ge. lia.
Qed.

Lemma recording_drops_the_redo_entries_witness :
  records (ClickAddTube "C") (run undone_twice init) = true /\
  exists entry,
    history (step (run undone_twice init) (ClickAddTube "C"))
    = firstn (Z.to_nat (historyIndex (run undone_twice init) + 1))
             (history (run undone_twice init)) ++ [entry] /\
    historyIndex (step (run undone_twice init) (ClickAddTube "C"))
    = (historyIndex (run undone_twice init) + 1)%Z /\
    canRedo (step (run undone_twice init) (ClickAddTube "C")) = false.
Proof.
  split; [reflexivity |].
  apply (recording_drops_the_redo_entries undone_twice (ClickAddTube "C")).
  reflexivity.
Defined.

(** ** What Undo and Redo show *)

Lemma index_map {A B : Type} (f : A -> B) (l : list A) (i : Z) :
  index (map f l) i = option_map f (index l i).
Proof.
  unfold index. destruct (i <? 0)%Z; [reflexivity |]. apply nth_error_map.
Qed.

(** A restored entry reads as it is stored, selection flags apart. *)
Lemma restored_reading (h : Heap) (sel : option string) (entry : list Tube.t) :
  map (segment h)
      (map (fun tube => Tube.setSelected tube
                          (strict_eq (Some (Tube.id tube)) sel))
           (map restoreTube entry))
  = map (reselect sel) (map (segment h) entry).
Proof. rewrite !map_map. reflexivity. Qed.

(** The state after restoring the entry at [j] and moving the cursor there. *)
Lemma restore_at (st st1 : State) (j : Z) (entry : list Tube.t) :
  mounted st = true ->
  index (history st) j = Some entry ->
  restoreState (index (history st) j) st = Some st1 ->
  let st' := render_effects (setHistoryIndex st1 j) in
  assembly st' = map (reselect (selectedTube st)) (stored_entry st j) /\
  historyIndex st' = j /\ history st' = history st /\ heap st' = heap st /\
  selectedTube st' = selectedTube st /\ mounted st' = true.
Proof.
  intros Hm He Hr. unfold restoreState in Hr. rewrite Hm, He in Hr.
  cbn [negb] in Hr. injection Hr as <-.
  unfold stored_entry, stored_history. rewrite index_map, He. cbn [option_map].
  unfold assembly, render_effects.
  cbn [tubes heap historyIndex history selectedTube mounted set_tubesRef setTubes
       setHistoryIndex].
  rewrite restored_reading. repeat split; auto.
Qed.

Lemma undo_shows_the_entry_below_aux (evs : list Event) :
  let st := run evs init in
  canUndo st = true ->
  assembly (step st ClickUndo)
  = map (reselect (selectedTube st)) (stored_entry st (historyIndex st - 1)) /\
  historyIndex (step st ClickUndo) = (historyIndex st - 1)%Z /\
  history (step st ClickUndo) = history st /\
  heap (step st ClickUndo) = heap st /\
  selectedTube (step st ClickUndo) = selectedTube st.
Proof.
  intros st Hcan. destruct (reachable evs) as (_ & _ & Hm). fold st in Hm.
  destruct (reachable_cursor evs) as (_ & Hu & _).
  fold st in Hu. destruct (Hu Hcan) as [entry He].
  unfold step. cbn [handle]. unfold undo. unfold canUndo in Hcan. rewrite Hcan.
  destruct (restoreState _ st) as [st1 |] eqn:Hr.
  - destruct (restore_at st st1 _ entry Hm He Hr) as (H1 & H2 & H3 & H4 & H5 & _).
    auto.
  - unfold restoreState in Hr. rewrite Hm, He in Hr. discriminate.
Qed.

(** X8. When Undo is enabled, a click on it shows the entry just below the
    cursor: the assembly becomes that stored entry as it reads in the
    store, with the selection flags set from the selected id, and the
    cursor moves one down; the history and the store are not touched. *)
Theorem undo_shows_the_entry_below (evs : list Event) :
  let st := run evs init in
  canUndo st = true ->
  assembly (step st ClickUndo)
  = map (reselect (selectedTube st)) (stored_entry st (historyIndex st - 1)) /\
  historyIndex (step st ClickUndo) = (historyIndex st - 1)%Z /\
  history (step st ClickUndo) = history st /\
  heap (step st ClickUndo) = heap st.
Proof.
  intros st Hcan.
  destruct (undo_shows_the_entry_below_aux evs Hcan) as (H1 & H2 & H3 & H4 & _).
  auto.
Qed.

Lemma undo_shows_the_entry_below_witness :
  canUndo two_tubes = true /\
  assembly (step two_tubes ClickUndo)
  = map (reselect (selectedTube two_tubes))
        (stored_entry two_tubes (historyIndex two_tubes - 1)) /\
  historyIndex (step two_tubes ClickUndo) = (historyIndex two_tubes - 1)%Z /\
  history (step two_tubes ClickUndo) = history two_tubes /\
  heap (step two_tubes ClickUndo) = heap two_tubes.
Proof.
  assert (H : canUndo two_tubes = true) by (eval_state; reflexivity).
  split; [exact H |].
  apply (undo_shows_the_entry_below [ClickAddTube "A"; ClickAddTube "B"]%string H).
Defined.

Lemma redo_shows_the_entry_above_aux (evs : list Event) :
  let st := run evs init in
  canRedo st = true ->
  assembly (step st ClickRedo)
  = map (reselect (selectedTube st)) (stored_entry st (historyIndex st + 1)) /\
  historyIndex (step st ClickRedo) = (historyIndex st + 1)%Z /\
  history (step st ClickRedo) = history st /\
  heap (step st ClickRedo) = heap st.
Proof.
  intros st Hcan. destruct (reachable evs) as (_ & _ & Hm). fold st in Hm.
  destruct (reachable_cursor evs) as (_ & _ & Hr0).
  fold st in Hr0. destruct (Hr0 Hcan) as [entry He].
  unfold step. cbn [handle]. unfold redo. unfold canRedo in Hcan. rewrite Hcan.
  destruct (restoreState _ st) as [st1 |] eqn:Hr.
  - destruct (restore_at st st1 _ entry Hm He Hr) as (H1 & H2 & H3 & H4 & _).
    auto.
  - unfold restoreState in Hr. rewrite Hm, He in Hr. discriminate.
Qed.

(** X9. When Redo is enabled, a click on it shows the entry just above the
    cursor, read the same way, and moves the cursor one up; the history and
    the store are not touched. *)
Theorem redo_shows_the_entry_above (evs : list Event) :
  let st := run evs init in
  canRedo st = true ->
  assembly (step st ClickRedo)
  = map (reselect (selectedTube st)) (stored_entry st (historyIndex st + 1)) /\
  historyIndex (step st ClickRedo) = (historyIndex st + 1)%Z /\
  history (step st ClickRedo) = history st /\
  heap (step st ClickRedo) = heap st.
Proof. exact (redo_shows_the_entry_above_aux evs). Qed.

Lemma redo_shows_the_entry_above_witness :
  canRedo (run undone_twice init) = true /\
  assembly (step (run undone_twice init) ClickRedo)
  = map (reselect (selectedTube (run undone_twice init)))
        (stored_entry (run undone_twice init)
                      (historyIndex (run undone_twice init) + 1)) /\
  historyIndex (step (run undone_twice init) ClickRedo)
  = (historyIndex (run undone_twice init) + 1)%Z /\
  history (step (run undone_twice init) ClickRedo) = history (run undone_twice init) /\
  heap (step (run undone_twice init) ClickRedo) = heap (run undone_twice init).
Proof.
  assert (H : canRedo (run undone_twice init) = true) by (eval_state; reflexivity).
  split; [exact H |].
  apply (redo_shows_the_entry_above undone_twice H).
Defined.

(** X10. Undo followed by Redo leaves the cursor and the history where they
    were and shows the entry under the cursor; the assembly is the one
    there was before the two clicks whenever it read like that entry. *)
Theorem undo_then_redo_returns_to_the_cursor (evs : list Event) :
  let st := run evs init in
  canUndo st = true ->
  let st' := run [ClickUndo; ClickRedo] st in
  historyIndex st' = historyIndex st /\ history st' = history st /\
  assembly st'
  = map (reselect (selectedTube st)) (stored_entry st (historyIndex st)) /\
  (assembly st = map (reselect (selectedTube st)) (stored_entry st (historyIndex st)) ->
   assembly st' = assembly st).
Proof.
  intros st Hcan st'.
  destruct (undo_shows_the_entry_below_aux evs Hcan) as (_ & Hi & Hh & Hheap & Hsel).
  fold st in Hi, Hh, Hheap, Hsel.
  destruct (reachable_cursor evs) as (Hok & _). fold st in Hok.
  assert (Hredo : canRedo (step st ClickUndo) = true).
  { unfold canRedo. rewrite Hi, Hh. apply Z.ltb_lt. unfold canUndo in Hcan.
    apply Z.ltb_lt in Hcan. destruct Hok as [[_ Hneg] | Hin]; lia. }
  destruct (redo_shows_the_entry_above_aux (evs ++ [ClickUndo])) as (Ha & Hi' & Hh' & _).
  { rewrite run_app. exact Hredo. }
  rewrite run_app in Ha, Hi', Hh'.
  change (run [ClickUndo] (run evs init)) with (step st ClickUndo) in Ha, Hi', Hh'.
  change st' with (step (step st ClickUndo) ClickRedo).
  assert (Hshow : assembly (step (step st ClickUndo) ClickRedo)
                  = map (reselect (selectedTube st)) (stored_entry st (historyIndex st))).
  { rewrite Ha, Hsel, Hi. unfold stored_entry, stored_history.
    rewrite Hh, Hheap.
    replace (historyIndex st - 1 + 1)%Z with (historyIndex st) by lia.
    reflexivity. }
  rewrite Hi', Hh', Hi, Hh. repeat split; try lia; try assumption.
  intros Hwas. now rewrite Hshow.
Qed.

Lemma undo_then_redo_returns_to_the_cursor_witness :
  canUndo two_tubes = true /\
  historyIndex (run [ClickUndo; ClickRedo] two_tubes) = historyIndex two_tubes /\
  history (run [ClickUndo; ClickRedo] two_tubes) = history two_tubes /\
  assembly (run [ClickUndo; ClickRedo] two_tubes)
  = map (reselect (selectedTube two_tubes))
        (stored_entry two_tubes (historyIndex two_tubes)) /\
  (assembly two_tubes
   = map (reselect (selectedTube two_tubes))
         (stored_entry two_tubes (historyIndex two_tubes)) ->
   assembly (run [ClickUndo; ClickRedo] two_tubes) = assembly two_tubes).
Proof.
  assert (H : canUndo two_tubes = true) by (eval_state; reflexivity).
  split; [exact H |].
  apply (undo_then_redo_returns_to_the_cursor
           [ClickAddTube "A"; ClickAddTube "B"]%string H).
Defined.

(** ** The chain stays in the floor plane *)















(** ** More on snapping *)

Lemma snapAngles_cases (r : R) :
  In r snapAngles ->
  r = 0 \/ r = 30 \/ r = 45 \/ r = 60 \/ r = 90 \/ r = 120 \/ r = 135 \/
  r = 150 \/ r = 180.
Proof. unfold snapAngles. cbn. intuition auto. Qed.

(** X12. With snapping on, an angle of the slider's range (0 to 180) is
    moved by at most 15 degrees, and the snapped angle is again in that
    range. *)
Theorem snap_moves_at_most_15_degrees (st : State) (a : R) :
  snapToAngle st = true -> 0 <= a <= 180 ->
  Rabs (snapAngleFunc st a - a) <= 15 /\ 0 <= snapAngleFunc st a <= 180.
Proof.
  intros Hsnap Ha. destruct (snapAngleFunc_nearest st a Hsnap) as [Hin Hmin].
  split.
  - assert (Hnear : exists s, In s snapAngles /\ Rabs (s - a) <= 15).
    { unfold snapAngles.
      destruct (Rle_dec a 15); [exists 0; split; [cbn; auto | by_abs] |].
      destruct (Rle_dec a 37); [exists 30; split; [cbn; auto | by_abs] |].
      destruct (Rle_dec a 52); [exists 45; split; [cbn; auto | by_abs] |].
      destruct (Rle_dec a 75); [exists 60; split; [cbn; auto | by_abs] |].
      destruct (Rle_dec a 105); [exists 90; split; [cbn; auto 10 | by_abs] |].
      destruct (Rle_dec a 127); [exists 120; split; [cbn; auto 10 | by_abs] |].
      destruct (Rle_dec a 142); [exists 135; split; [cbn; auto 10 | by_abs] |].
      destruct (Rle_dec a 165); [exists 150; split; [cbn; auto 10 | by_abs] |].
      exists 180; split; [cbn; auto 10 | by_abs]. }
    destruct Hnear as (s & Hs & Hbound).
    destruct (Hmin s Hs) as [Hle _]. lra.
  - apply snapAngles_cases in Hin.
    destruct Hin as [-> | [-> | [-> | [-> | [-> | [-> | [-> | [-> | ->]]]]]]]]; lra.
Qed.

Lemma snap_moves_at_most_15_degrees_witness :
  snapToAngle init = true /\ 0 <= 100 <= 180 /\
  Rabs (snapAngleFunc init 100 - 100) <= 15 /\
  0 <= snapAngleFunc init 100 <= 180.
Proof.
  split; [reflexivity |]. split; [lra |].
  apply (snap_moves_at_most_15_degrees init 100); [reflexivity | lra].
Defined.

Lemma snap_fixes_the_set (st : State) (r : R) :
  snapToAngle st = true -> In r snapAngles -> snapAngleFunc st r = r.
Proof.
  intros Hsnap Hin. apply snapAngles_cases in Hin.
  unfold snapAngleFunc. rewrite Hsnap.
  destruct Hin as [-> | [-> | [-> | [-> | [-> | [-> | [-> | [-> | ->]]]]]]]];
    eval_snap.
Qed.

(** X13. Snapping is idempotent, with the snap setting on or off: an angle
    that has been snapped is left as it is by a second snap, so the values
    of the snap set are exactly the angles snapping does not change. *)
Theorem snap_is_idempotent (st : State) (a : R) :
  snapAngleFunc st (snapAngleFunc st a) = snapAngleFunc st a.
Proof.
  destruct (snapToAngle st) eqn:Hsnap.
  - apply snap_fixes_the_set; [exact Hsnap |].
    apply (snapAngleFunc_nearest st a Hsnap).
  - now rewrite !snapAngleFunc_off.
Qed.

(** X14. Snapping keeps the order of angles: a larger input never snaps to
    a smaller value. *)
Theorem snap_is_monotone (st : State) (a b : R) :
  a <= b -> snapAngleFunc st a <= snapAngleFunc st b.
Proof.
  intros Hab. destruct (snapToAngle st) eqn:Hsnap;
    [| now rewrite !snapAngleFunc_off].
  destruct (snapAngleFunc_nearest st a Hsnap) as [Hina Hmina].
  destruct (snapAngleFunc_nearest st b Hsnap) as [Hinb Hminb].
  destruct (Hmina _ Hinb) as [Ha1 Ha2]. destruct (Hminb _ Hina) as [Hb1 _].
  set (ra := snapAngleFunc st a) in *. set (rb := snapAngleFunc st b) in *.
  destruct (Rle_dec ra rb) as [Hle | Hgt]; [exact Hle | exfalso].
  assert (Hstrict : Rabs (ra - a) < Rabs (rb - a)).
  { destruct (Rle_lt_or_eq_dec _ _ Ha1) as [Hlt | Heq]; [exact Hlt |].
    exfalso. apply Hgt, Ha2. now symmetry. }
  clear Ha1 Ha2 Hmina Hminb Hina Hinb.
  revert Hstrict Hb1. unfold Rabs. repeat destruct Rcase_abs; lra.
Qed.

Lemma snap_is_monotone_witness :
  37 <= 38 /\ snapAngleFunc init 37 <= snapAngleFunc init 38.
Proof.
  split; [lra |]. apply (snap_is_monotone init 37 38). lra.
Defined.

(** ** Snapshots *)

(** A recording click hands [addToHistory] the tubes of the state it
    records in, all of them valid there. *)
Lemma handle_records_live (ev : Event) (st : State) :
  WF st -> mounted st = true -> records ev st = true ->
  exists st0,
    handle ev st = addToHistory (history st) (historyIndex st) (tubes st0) st0 /\
    Forall (valid (heap st0)) (tubes st0).
Proof.
  intros Hwf Hm Hrec. destruct ev; try discriminate; cbn [handle].
  - rewrite addTube_eq by exact Hm. exists (appended newId st).
    split; [reflexivity | now apply appended_valid].
  - unfold removeTube. rewrite Hm. cbn [negb]. cbn in Hrec.
    destruct (find _ (tubes st)) eqn:Hfind.
    + set (filtered := filter _ (tubes st)).
      set (st2 := if strict_eq _ _ then _ else _).
      assert (Ht2 : tubes st2 = filtered)
        by (subst st2; destruct (strict_eq _ _); reflexivity).
      assert (Hh2 : heap st2 = heap st)
        by (subst st2; destruct (strict_eq _ _); reflexivity).
      exists st2. rewrite Ht2, Hh2. split; [reflexivity |].
      subst filtered. apply Forall_filter_keep, (wf_tubes st Hwf).
    + apply existsb_exists in Hrec. destruct Hrec as (tube & Hin & Heq).
      pose proof (find_none _ _ Hfind tube Hin) as Hf. cbn in Hf. congruence.
Qed.

(** The clones of valid tubes hold objects none of the originals holds. *)
Lemma snapshot_disjoint (ts : list Tube.t) (h : Heap) :
  Forall (valid h) ts -> disjoint_tubes ts (fst (map_clone ts h)).
Proof.
  intros Hv t0 u Ht Hu.
  destruct (map_clone_spec ts h) as (Hp & Hr & _).
  rewrite Forall_forall in Hv. destruct (Hv t0 Ht) as [Hpt Hrt].
  assert (H1 : In (Tube.position u) (seq (List.length (vectors h)) (List.length ts)))
    by (rewrite <- Hp; now apply in_map).
  assert (H2 : In (Tube.rotation u) (seq (List.length (eulers h)) (List.length ts)))
    by (rewrite <- Hr; now apply in_map).
  apply in_seq in H1, H2. lia.
Qed.

Lemma disjoint_setSelected (f : Tube.t -> bool) (ts us : list Tube.t) :
  disjoint_tubes ts us ->
  disjoint_tubes (map (fun tube => Tube.setSelected tube (f tube)) ts) us.
Proof.
  intros Hd t0 u Ht Hu. apply in_map_iff in Ht. destruct Ht as (t1 & <- & Ht1).
  apply (Hd t1 u Ht1 Hu).
Qed.

(** X15. The entry a recording click (Add Tube, or the remove button of an
    existing tube) appends is an independent copy: it reads like the
    assembly of that moment, selection flags aside, and no live tube holds
    a position or rotation object of it. *)
Theorem recorded_entry_is_an_independent_copy (evs : list Event) (ev : Event) :
  let st := run evs init in
  records ev st = true ->
  exists entry,
    last_elem (history (step st ev)) = Some entry /\
    map unselected (map (segment (heap (step st ev))) entry)
    = map unselected (assembly (step st ev)) /\
    disjoint_tubes (tubes (step st ev)) entry.
Proof.
  intros st Hrec. destruct (reachable evs) as (Hwf & _ & Hm). fold st in Hwf, Hm.
  destruct (handle_records_live ev st Hwf Hm Hrec) as (st0 & Heq & Hval).
  unfold step, assembly. rewrite Heq, addToHistory_eq.
  cbn [render_effects history heap tubes selectedTube set_tubesRef setTubes
       setHistoryIndex setHistory set_heap].
  exists (fst (map_clone (tubes st0) (heap st0))).
  split; [apply last_elem_snoc |]. split.
  - destruct (map_clone_spec (tubes st0) (heap st0)) as (_ & _ & _ & _ & Hseg).
    rewrite (Hseg Hval), !map_map. cbn [unselected segment Tube.setSelected].
    apply map_ext_in. intros tube Hin.
    rewrite Forall_forall in Hval.
    pose proof (extends_segment _ _ tube (map_clone_extends (tubes st0) (heap st0))
                  (Hval tube Hin)) as Hs.
    unfold segment in Hs. injection Hs as Hp Hr.
    unfold unselected, segment. cbn. now rewrite Hp, Hr.
  - apply disjoint_setSelected. now apply snapshot_disjoint.
Qed.

Lemma recorded_entry_is_an_independent_copy_witness :
  records (ClickRemoveTube "A") two_tubes = true /\
  exists entry,
    last_elem (history (step two_tubes (ClickRemoveTube "A"))) = Some entry /\
    map unselected
        (map (segment (heap (step two_tubes (ClickRemoveTube "A")))) entry)
    = map unselected (assembly (step two_tubes (ClickRemoveTube "A"))) /\
    disjoint_tubes (tubes (step two_tubes (ClickRemoveTube "A"))) entry.
Proof.
  assert (H : records (ClickRemoveTube "A") two_tubes = true)
    by (eval_state; reflexivity).
  split; [exact H |].
  apply (recorded_entry_is_an_independent_copy
           [ClickAddTube "A"; ClickAddTube "B"]%string (ClickRemoveTube "A") H).
Defined.

(** Every handler but the pointer move keeps what the store holds. *)
Lemma handle_preserves (ev : Event) (st : State) :
  not_a_move ev = true -> preserves (heap st) (heap (handle ev st)).
Proof.
  intros Hev. destruct ev; try discriminate; cbn [handle];
    try apply preserves_refl.
  - destruct (mounted st) eqn:Hm.
    + rewrite addTube_eq by exact Hm. rewrite addToHistory_eq.
      cbn [heap setHistoryIndex setHistory set_heap].
      eapply preserves_trans; [apply appended_preserves |].
      apply extends_preserves, map_clone_extends.
    + unfold addTube. rewrite Hm. apply preserves_refl.
  - unfold removeTube. destruct (mounted st); cbn [negb]; [| apply preserves_refl].
    destruct (find _ _); [| apply preserves_refl].
    rewrite addToHistory_eq. cbn [heap setHistoryIndex setHistory set_heap].
    destruct (strict_eq _ _); apply extends_preserves, map_clone_extends.
  - unfold clearAll. destruct (mounted st); apply preserves_refl.
  - unfold undo. destruct (_ <? _)%Z; [| apply preserves_refl].
    unfold restoreState. destruct (mounted st); cbn [negb]; [| apply preserves_refl].
    destruct (index _ _); apply preserves_refl.
  - unfold redo. destruct (_ <? _)%Z; [| apply preserves_refl].
    unfold restoreState. destruct (mounted st); cbn [negb]; [| apply preserves_refl].
    destruct (index _ _); apply preserves_refl.
  - unfold onMouseDown. destruct (mounted st); cbn [negb]; [| apply preserves_refl].
    destruct ((_ =? 0)%Z && negb _)%bool, hit, ((_ =? 1)%Z || _)%bool;
      apply preserves_refl.
  - unfold onMouseUp. cbn [draggedTubeRef set_isDragging tubesRef].
    destruct (truthy _); [| apply preserves_refl].
    rewrite addToHistory_eq. cbn. apply extends_preserves, map_clone_extends.
Qed.

(** X16. No event other than a pointer move changes what an entry already
    in the history reads: edits, undo, redo, selection and the release of a
    drag leave every stored snapshot as it was taken. *)
Theorem stored_entries_read_the_same (evs : list Event) (ev : Event)
        (entry : list Tube.t) :
  let st := run evs init in
  not_a_move ev = true -> In entry (history st) ->
  map (segment (heap (step st ev))) entry = map (segment (heap st)) entry.
Proof.
  intros st Hev Hin. destruct (reachable evs) as (Hwf & _). fold st in Hwf.
  unfold step. cbn [render_effects heap set_tubesRef setTubes].
  apply preserves_segments; [now apply handle_preserves |].
  pose proof (wf_history st Hwf) as Hh. rewrite Forall_forall in Hh. now apply Hh.
Qed.

Lemma stored_entries_read_the_same_witness :
  not_a_move (ClickAddTube "C") = true /\
  In [Tube.mk 50 30 3 100 1%nat 1%nat "A" false] (history two_tubes) /\
  map (segment (heap (step two_tubes (ClickAddTube "C"))))
      [Tube.mk 50 30 3 100 1%nat 1%nat "A" false]
  = map (segment (heap two_tubes)) [Tube.mk 50 30 3 100 1%nat 1%nat "A" false].
Proof.
  assert (H : In [Tube.mk 50 30 3 100 1%nat 1%nat "A" false] (history two_tubes))
    by (eval_state; left; reflexivity).
  split; [reflexivity |]. split; [exact H |].
  apply (stored_entries_read_the_same
           [ClickAddTube "A"; ClickAddTube "B"]%string (ClickAddTube "C") _ eq_refl H).
Defined.

(** ** The drag, when the ray meets the floor *)



(** X18. The release of the mouse button moves nothing: the assembly after
    it is the assembly before it, whether or not a tube was being
    dragged. *)
Theorem release_keeps_the_assembly (evs : list Event) :
  let st := run evs init in
  assembly (step st MouseUp) = assembly st.
Proof.
  intros st. destruct (reachable evs) as (Hwf & Hc & _). fold st in Hwf, Hc.
  pose proof (handle_preserves MouseUp st eq_refl) as Hpre.
  assert (Hfields : tubes (handle MouseUp st) = tubes st /\
                    selectedTube (handle MouseUp st) = selectedTube st).
  { cbn [handle]. unfold onMouseUp. cbn [draggedTubeRef set_isDragging tubesRef].
    destruct (truthy _); [rewrite addToHistory_eq |]; split; reflexivity. }
  destruct Hfields as [Ht Hs].
  unfold step, assembly, render_effects. cbn [tubes heap set_tubesRef setTubes].
  rewrite Ht, Hs, (committed_setSelected st Hc).
  apply preserves_segments; [exact Hpre | apply (wf_tubes st Hwf)].
Qed.

(** ** Selection *)

Lemma at_most_one_selected {A : Type} (key : A -> string) (p : A -> bool)
      (c : string) (l : list A) :
  NoDup (map key l) ->
  (forall a, In a l -> p a = true -> key a = c) ->
  (List.length (filter p l) <= 1)%nat.
Proof.
  induction l as [| a l IH]; cbn; intros Hnd Hkey; [lia |].
  inversion Hnd as [| ? ? Hnotin Hrest]; subst.
  assert (IH' : (List.length (filter p l) <= 1)%nat)
    by (apply IH; [exact Hrest | intros b Hb; apply Hkey; now right]).
  destruct (p a) eqn:Hpa; [| exact IH'].
  assert (Hnone : filter p l = []).
  { destruct (filter p l) as [| b rest] eqn:Hf; [reflexivity | exfalso].
    assert (Hb : In b (filter p l)) by (rewrite Hf; now left).
    apply filter_In in Hb. destruct Hb as [Hb Hpb].
    apply Hnotin. rewrite (Hkey a (or_introl eq_refl) Hpa).
    rewrite <- (Hkey b (or_intror Hb) Hpb). now apply in_map. }
  rewrite Hnone. cbn. lia.
Qed.

(** X19. In every state the application reaches, a segment is flagged
    selected exactly when its id is the selected id; so as long as the ids
    of the assembly are distinct, at most one segment is selected. *)
Theorem selection_follows_the_selected_id (evs : list Event) :
  let st := run evs init in
  Forall (fun s => seg_selected s = strict_eq (Some (seg_id s)) (selectedTube st))
         (assembly st) /\
  (NoDup (map seg_id (assembly st)) ->
   (List.length (filter seg_selected (assembly st)) <= 1)%nat).
Proof.
  intros st. destruct (reachable evs) as (_ & [_ Hsel] & _). fold st in Hsel.
  assert (Hflags : Forall (fun s => seg_selected s
                                    = strict_eq (Some (seg_id s)) (selectedTube st))
                          (assembly st)).
  { unfold assembly. apply Forall_map. eapply Forall_impl; [| exact Hsel].
    intros tube H. exact H. }
  split; [exact Hflags |]. intros Hnd.
  destruct (selectedTube st) as [c |] eqn:Hc.
  - apply (at_most_one_selected seg_id seg_selected c); [exact Hnd |].
    intros s Hin Hs. rewrite Forall_forall in Hflags.
    rewrite (Hflags s Hin) in Hs. apply strict_eq_true in Hs. congruence.
  - rewrite Forall_forall in Hflags.
    assert (Hnone : filter seg_selected (assembly st) = []).
    { destruct (filter seg_selected (assembly st)) as [| s rest] eqn:Hf;
        [reflexivity | exfalso].
      assert (Hs : In s (filter seg_selected (assembly st))) by (rewrite Hf; now left).
      apply filter_In in Hs. destruct Hs as [Hin Hs].
      rewrite (Hflags s Hin) in Hs. discriminate. }
    rewrite Hnone. cbn. lia.
Qed.

(** ** The cross-section *)



(** ** The camera *)






Lemma multiplyScalar_origin (s : R) :
  multiplyScalar (Vector3.mk 0 0 0) s = Vector3.mk 0 0 0.
Proof. unfold multiplyScalar. cbn. f_equal; ring. Qed.

Lemma rotate_at_origin (clientX clientY : R) (c : Camera.t) :
  Camera.position c = Vector3.mk 0 0 0 ->
  Camera.position (Camera.rotate clientX clientY c) = Vector3.mk 0 0 0.
Proof.
  intros Hc. unfold Camera.rotate. cbn [Camera.position].
  rewrite Hc. unfold Spherical.setFromVector3. cbn [Vector3.x Vector3.y Vector3.z].
  replace (0 * 0 + 0 * 0 + 0 * 0) with 0 by ring. rewrite sqrt_0.
  destruct (Req_dec_T 0 0) as [_ | H]; [| exfalso; now apply H].
  unfold setFromSpherical. cbn. f_equal; ring.
Qed.

(** X22. A wheel event with deltaY = -1000 multiplies the camera position
    by 0, and from the origin neither the wheel nor a rotation moves the
    camera again: whatever wheel and rotate events follow, it stays at the
    origin until Reset View puts it back at (200, 200, 200). *)
Theorem camera_is_stuck_at_the_origin (evs : list Camera.Event) (c : Camera.t) :
  forallb Camera.no_reset evs = true ->
  Camera.position (Camera.run evs (Camera.onWheel (-1000) c)) = Vector3.mk 0 0 0 /\
  Camera.position (Camera.run (evs ++ [Camera.Reset]) (Camera.onWheel (-1000) c))
  = Vector3.mk 200 200 200.
Proof.
  intros Hevs.
  assert (H0 : Camera.position (Camera.onWheel (-1000) c) = Vector3.mk 0 0 0).
  { unfold Camera.onWheel, Camera.zoomSpeed, multiplyScalar. cbn. f_equal; field. }
  assert (Hstay : forall c0, Camera.position c0 = Vector3.mk 0 0 0 ->
                             Camera.position (Camera.run evs c0) = Vector3.mk 0 0 0).
  { unfold Camera.run. induction evs as [| ev evs IH]; intros c0 Hc0; cbn [fold_left];
      [exact Hc0 |].
    cbn [forallb] in Hevs. apply andb_prop in Hevs. destruct Hevs as [Hev Hevs].
    apply (IH Hevs). destruct ev; try discriminate; cbn [Camera.handle].
    - unfold Camera.onWheel. cbn [Camera.position]. rewrite Hc0.
      apply multiplyScalar_origin.
    - now apply rotate_at_origin. }
  split; [now apply Hstay |].
  unfold Camera.run. rewrite fold_left_app. reflexivity.
Qed.

Lemma camera_is_stuck_at_the_origin_witness :
  forallb Camera.no_reset [Camera.Wheel 300; Camera.Rotate 40 10] = true /\
  Camera.position (Camera.run [Camera.Wheel 300; Camera.Rotate 40 10]
                              (Camera.onWheel (-1000) Camera.initial))
  = Vector3.mk 0 0 0 /\
  Camera.position (Camera.run ([Camera.Wheel 300; Camera.Rotate 40 10]
                               ++ [Camera.Reset])
                              (Camera.onWheel (-1000) Camera.initial))
  = Vector3.mk 200 200 200.
Proof.
  split; [reflexivity |].
  apply (camera_is_stuck_at_the_origin [Camera.Wheel 300; Camera.Rotate 40 10]
                                       Camera.initial).
  reflexivity.
Defined.

(** ** The first version of addTube *)

(** X23. The first version of addTube puts the centre of the new tube on
    the end face of the last one, so the two tubes overlap by half the new
    length; the current version gives the same rotation (snapping off) and
    moves the tube half its length further along its own new direction. *)
Theorem legacy_addTube_centres_on_the_joint (evs : list Event) (newId : string)
        (prev : Segment) :
  let st := run evs init in
  snapToAngle st = false ->
  last_elem (assembly st) = Some prev ->
  exists s t0,
    last_elem (assembly (step st (ClickAddTube newId))) = Some s /\
    last_elem (Legacy.tubes (Legacy.addTube newId (Legacy.of_state st))) = Some t0 /\
    Legacy.position t0 = end_face prev /\
    seg_rotation s = Legacy.rotation t0 /\
    seg_position s
    = Vector3.add (Legacy.position t0)
                  (applyEuler (Vector3.mk 0 0 (seg_length s / 2)) (seg_rotation s)).
Proof.
  intros st Hsnap Hprev. destruct (reachable evs) as (Hwf & Hc & Hm).
  fold st in Hwf, Hc, Hm.
  rewrite (step_addTube_assembly newId st Hwf Hc Hm).
  unfold Legacy.addTube. cbn [Legacy.mounted Legacy.of_state]. rewrite Hm. cbn [negb].
  cbn [Legacy.tubes Legacy.of_state]. rewrite last_elem_map, Hprev. cbn [option_map].
  eexists. eexists. split; [apply last_elem_snoc |].
  split; [apply last_elem_snoc |].
  unfold assembly in Hprev. rewrite last_elem_map in Hprev.
  destruct (last_elem (tubes st)) as [lastTube |] eqn:Hlast; [| discriminate].
  injection Hprev as <-.
  unfold placeNext, end_face. rewrite Hlast, Hsnap.
  cbn [Legacy.position Legacy.rotation Legacy.length Legacy.of_segment
       Legacy.angle seg_position seg_rotation seg_length segment fst snd].
  split; [reflexivity |]. split; [reflexivity |].
  f_equal. apply add_comm.
Qed.

Lemma legacy_addTube_centres_on_the_joint_witness :
  snapToAngle (run [ChangeSnap false; ClickAddTube "A"%string] init) = false /\
  last_elem (assembly (run [ChangeSnap false; ClickAddTube "A"%string] init))
  = Some (mkSegment "A" 50 30 3 100 (Vector3.mk 0 0 0) (Euler.mk 0 0 0) false) /\
  exists s t0,
    last_elem (assembly (step (run [ChangeSnap false; ClickAddTube "A"%string] init)
                              (ClickAddTube "B"))) = Some s /\
    last_elem (Legacy.tubes
                 (Legacy.addTube "B"
                    (Legacy.of_state
                       (run [ChangeSnap false; ClickAddTube "A"%string] init))))
    = Some t0 /\
    Legacy.position t0
    = end_face (mkSegment "A" 50 30 3 100 (Vector3.mk 0 0 0) (Euler.mk 0 0 0) false) /\
    seg_rotation s = Legacy.rotation t0 /\
    seg_position s
    = Vector3.add (Legacy.position t0)
                  (applyEuler (Vector3.mk 0 0 (seg_length s / 2)) (seg_rotation s)).
Proof.
  assert (H1 : snapToAngle (run [ChangeSnap false; ClickAddTube "A"%string] init) = false)
    by (eval_state; reflexivity).
  assert (H2 : last_elem (assembly (run [ChangeSnap false; ClickAddTube "A"%string] init))
               = Some (mkSegment "A" 50 30 3 100 (Vector3.mk 0 0 0)
                                 (Euler.mk 0 0 0) false))
    by (eval_state; reflexivity).
  split; [exact H1 |]. split; [exact H2 |].
  apply (legacy_addTube_centres_on_the_joint
           [ChangeSnap false; ClickAddTube "A"%string] "B" _ H1 H2).
Defined.

(** ** Clicks in the viewport *)

Lemma unselected_assembly_setSelected (h : Heap) (f : Tube.t -> bool)
      (ts : list Tube.t) :
  map unselected (map (segment h) (map (fun tube => Tube.setSelected tube (f tube)) ts))
  = map unselected (map (segment h) ts).
Proof. rewrite !map_map. reflexivity. Qed.

(** X24. A plain left click in the viewport sets the selection to what is
    under the pointer: the tube hit, or nothing on empty space.  After it
    exactly the segments carrying that id are flagged, no segment has
    changed in any other field, and a drag session is opened only when a
    tube was hit. *)
Theorem click_sets_the_selection (evs : list Event) (hit : option string) :
  let st := run evs init in
  let st' := step st (MouseDown 0 false hit) in
  selectedTube st' = hit /\
  Forall (fun s => seg_selected s = strict_eq (Some (seg_id s)) hit) (assembly st') /\
  map unselected (assembly st') = map unselected (assembly st) /\
  draggedTubeRef st' = match hit with
                       | Some tubeId => Some tubeId
                       | None => draggedTubeRef st
                       end.
Proof.
  intros st st'. destruct (reachable evs) as (_ & _ & Hm). fold st in Hm.
  assert (Hfields : selectedTube (handle (MouseDown 0 false hit) st) = hit /\
                    tubes (handle (MouseDown 0 false hit) st) = tubes st /\
                    heap (handle (MouseDown 0 false hit) st) = heap st /\
                    draggedTubeRef (handle (MouseDown 0 false hit) st)
                    = match hit with
                      | Some tubeId => Some tubeId
                      | None => draggedTubeRef st
                      end).
  { cbn [handle]. unfold onMouseDown. rewrite Hm. destruct hit; cbn; auto. }
  destruct Hfields as (Hs & Ht & Hh & Hd).
  subst st'. unfold step, assembly, render_effects.
  cbn [selectedTube tubes heap draggedTubeRef set_tubesRef setTubes].
  rewrite Hs, Ht, Hh, Hd. split; [reflexivity |]. split; [| split; [| reflexivity]].
  - apply Forall_map, Forall_map, Forall_forall. intros tube _. reflexivity.
  - apply unselected_assembly_setSelected.
Qed.
